(** * moviedb-promise: the quota-aware request scheduler of [src/moviedb.ts]

    A shallow embedding of the class [MovieDb]: the endpoint resolver
    ([prepareEndpoint]), the dispatcher ([makeRequest]), the rejection
    handler passed to [.catch] and the queue drainer ([checkQueue]),
    followed by the properties of the specification that concern them.

    Modelling conventions.
    - A JavaScript number is a [number]: an integer or [NaN].  All numbers
      the scheduler handles are integers (results of [parseInt],
      [Date.now()], millisecond products) or [NaN]; the loss of precision
      of doubles beyond 2^53 is not modelled.
    - A JavaScript string is a [string] of 8-bit characters.
    - An object used as a dictionary is an association list in insertion
      order, as [Object.keys] enumerates it (keys are assumed not to be
      array indices, which JavaScript would enumerate first).
    - The class instance is the record [MovieDb]; methods run in the monad
      [M], which threads the instance and what it acts on (timers,
      transport), keeps the mutations made before an exception is thrown,
      and is bounded by fuel because [makeRequest] and [checkQueue] call
      each other.
    - [Date.now()] is the argument [now] of each synchronous run.
    - The transport is [axios] (line 1): an error it passes to the
      rejection handler has no property [header] ([from_axios]). *)

From Stdlib Require Import String Ascii List ZArith Bool Lia.
Import ListNotations.
Local Open Scope string_scope.
Local Open Scope Z_scope.

(** ** JavaScript numbers *)

Module JS.

Inductive number : Type :=
| Num (z : Z)
| NaN.

Definition number_eqb (a b : number) : bool :=
  match a, b with
  | Num x, Num y => x =? y
  | _, _ => false
  end.

(** [a < b], [a <= b], [a > b]: every comparison with [NaN] is false. *)
Definition lt (a b : number) : bool :=
  match a, b with
  | Num x, Num y => x <? y
  | _, _ => false
  end.

Definition le (a b : number) : bool :=
  match a, b with
  | Num x, Num y => x <=? y
  | _, _ => false
  end.

Definition gt (a b : number) : bool := lt b a.

Definition add (a b : number) : number :=
  match a, b with
  | Num x, Num y => Num (x + y)
  | _, _ => NaN
  end.

Definition sub (a b : number) : number :=
  match a, b with
  | Num x, Num y => Num (x - y)
  | _, _ => NaN
  end.

Definition mul (a b : number) : number :=
  match a, b with
  | Num x, Num y => Num (x * y)
  | _, _ => NaN
  end.

(** [ToBoolean] on a number: [0] and [NaN] are falsy. *)
Definition truthy (a : number) : bool :=
  match a with
  | Num z => negb (z =? 0)
  | NaN => false
  end.

(** [ToBoolean] on a possibly undefined string: [undefined] and the
    empty string are falsy. *)
Definition truthy_string (s : option string) : bool :=
  match s with
  | Some (String _ _) => true
  | _ => false
  end.

(** *** [parseInt] with the default radix

    White space is the white space of the 8-bit characters: tab to
    carriage return, space and the no-break space. *)

Definition is_space (c : ascii) : bool :=
  let n := nat_of_ascii c in
  (Nat.eqb n 32 || Nat.eqb n 160 || (Nat.leb 9 n && Nat.leb n 13))%bool.

Definition digit_value (c : ascii) : option Z :=
  let n := nat_of_ascii c in
  if (Nat.leb 48 n && Nat.leb n 57)%bool then Some (Z.of_nat (n - 48))
  else if (Nat.leb 97 n && Nat.leb n 102)%bool then Some (Z.of_nat (n - 87))
  else if (Nat.leb 65 n && Nat.leb n 70)%bool then Some (Z.of_nat (n - 55))
  else None.

Fixpoint skip_spaces (s : string) : string :=
  match s with
  | String c r => if is_space c then skip_spaces r else s
  | EmptyString => s
  end.

(** The longest prefix of digits of the radix, read most significant
    first; [None] when the prefix is empty. *)
Fixpoint read_digits (radix : Z) (acc : option Z) (s : string) : option Z :=
  match s with
  | EmptyString => acc
  | String c r =>
      match digit_value c with
      | Some d =>
          if d <? radix
          then read_digits radix
                 (Some (match acc with Some a => a * radix + d | None => d end)) r
          else acc
      | None => acc
      end
  end.

Definition parse_unsigned (s : string) : option Z :=
  match s with
  | String "0" (String "x" r) => read_digits 16 None r
  | String "0" (String "X" r) => read_digits 16 None r
  | _ => read_digits 10 None s
  end.

(** [parseInt(v)] for [v] a string or [undefined] ([None]), the latter
    being converted to the text "undefined", which has no digits. *)
Definition parseInt (v : option string) : number :=
  match v with
  | None => NaN
  | Some s =>
      match skip_spaces s with
      | String "-" r =>
          match parse_unsigned r with Some z => Num (- z) | None => NaN end
      | String "+" r =>
          match parse_unsigned r with Some z => Num z | None => NaN end
      | r =>
          match parse_unsigned r with Some z => Num z | None => NaN end
      end
  end.

(** *** Strings *)

Definition is_letter (c : ascii) : bool :=
  let n := nat_of_ascii c in
  ((Nat.leb 97 n && Nat.leb n 122) || (Nat.leb 65 n && Nat.leb n 90))%bool.

Definition is_colon (c : ascii) : bool := Ascii.eqb c ":".

Fixpoint drop (n : nat) (s : string) : string :=
  match n, s with
  | S n', String _ r => drop n' r
  | _, _ => s
  end.

Definition startsWith (s p : string) : bool := String.prefix p s.

(** [s.includes(p)] *)
Fixpoint includes (s p : string) : bool :=
  if String.prefix p s then true
  else match s with
       | String _ r => includes r p
       | EmptyString => false
       end.

(** The replacement text of [String.prototype.replace] for a match
    without capture groups: [$$] is a dollar, [$&] the match, [$`] the
    text before it, [$'] the text after it; any other dollar is kept. *)
Fixpoint substitution (matched before after repl : string) : string :=
  match repl with
  | EmptyString => EmptyString
  | String "$" (String c r as t) =>
      if Ascii.eqb c "$" then String "$" (substitution matched before after r)
      else if Ascii.eqb c "&" then matched ++ substitution matched before after r
      else if Ascii.eqb c "`" then before ++ substitution matched before after r
      else if Ascii.eqb c "'" then after ++ substitution matched before after r
      else String "$" (substitution matched before after t)
  | String c r => String c (substitution matched before after r)
  end.

(** [s.replace(pat, repl)] for a non-empty string pattern: the first
    occurrence only.  [before] is the text already scanned. *)
Fixpoint replace_from (pat repl before s : string) : string :=
  if String.prefix pat s
  then let after := drop (String.length pat) s in
       substitution pat before after repl ++ after
  else match s with
       | String c r => String c (replace_from pat repl (before ++ String c EmptyString) r)
       | EmptyString => EmptyString
       end.

Definition replace (s pat repl : string) : string :=
  replace_from pat repl EmptyString s.

(** The longest prefix of letters, and what follows it. *)
Fixpoint span_letters (s : string) : string * string :=
  match s with
  | String c r =>
      if is_letter c
      then let (l, rest) := span_letters r in (String c l, rest)
      else (EmptyString, s)
  | EmptyString => (EmptyString, EmptyString)
  end.

(** [s.replace(/:[a-z]*/gi, repl)]: every colon with the letters that
    follow it.  [inside] tells that the scan is within a match, whose
    letters are dropped. *)
Fixpoint replace_placeholders_from (repl before : string) (inside : bool)
    (s : string) : string :=
  match s with
  | EmptyString => EmptyString
  | String c r =>
      let before' := before ++ String c EmptyString in
      if (inside && is_letter c)%bool
      then replace_placeholders_from repl before' true r
      else if is_colon c
      then let (letters, after) := span_letters r in
           substitution (String c letters) before after repl
             ++ replace_placeholders_from repl before' true r
      else String c (replace_placeholders_from repl before' false r)
  end.

Definition replace_placeholders (s repl : string) : string :=
  replace_placeholders_from repl EmptyString false s.

(** [(s.match(/:/g) || []).length] *)
Fixpoint count_colons (s : string) : nat :=
  match s with
  | EmptyString => O
  | String c r => if is_colon c then S (count_colons r) else count_colons r
  end.

(** [s.match(/:[a-z]/gi) || []]: every colon immediately followed by a
    letter, with that ONE letter. *)
Fixpoint match_colon_letter (s : string) : list string :=
  match s with
  | EmptyString => []
  | String c r =>
      if is_colon c
      then match r with
           | String d r' =>
               if is_letter d
               then String c (String d EmptyString) :: match_colon_letter r'
               else match_colon_letter r
           | EmptyString => []
           end
      else match_colon_letter r
  end.

(** [s.substr(1)] *)
Definition substr1 (s : string) : string := drop 1 s.

End JS.

(** ** Dictionaries: objects used as string-keyed maps *)

Definition dict : Type := list (string * string).

Fixpoint dict_get (o : dict) (k : string) : option string :=
  match o with
  | [] => None
  | (k', v) :: r => if String.eqb k' k then Some v else dict_get r k
  end.

(** [o[k] = v]: an existing key keeps its place, a new one goes last. *)
Fixpoint dict_set (o : dict) (k v : string) : dict :=
  match o with
  | [] => [(k, v)]
  | (k', v') :: r =>
      if String.eqb k' k then (k', v) :: r else (k', v') :: dict_set r k v
  end.

Definition dict_keys (o : dict) : list string := map fst o.

Definition mem (k : string) (l : list string) : bool :=
  existsb (String.eqb k) l.

(** lodash [merge(object, source)] on string-valued properties: each
    property of [source], in order, is assigned to [object]. *)
Definition merge (object source : dict) : dict :=
  fold_left (fun acc kv => dict_set acc (fst kv) (snd kv)) source object.

(** lodash [omit(object, paths)] for paths that are plain keys. *)
Definition omit (object : dict) (paths : list string) : dict :=
  filter (fun kv => negb (mem (fst kv) paths)) object.

(** ** The data model

    [MovieDbOptions], [LimitOptions], [RequestOptions] and [RequestParams]
    are declared in [./types], which is not among the sources; the
    records below have the fields that [moviedb.ts] reads and writes. *)

(** Modelled from the spec: the enumeration [HttpMethod] is declared in
    [./types], which is not among the sources; only [HttpMethod.Get] is
    named in [moviedb.ts]. *)
Inductive HttpMethod : Type := Get | Post | Put | Delete.

(** [string|RequestParams]: a raw string or a mapping.  The values of the
    mapping are strings (they are substituted into a path). *)
Inductive Params : Type :=
| PString (s : string)
| PObject (o : dict).

(** lodash [isString], [isObject], [isEmpty] *)
Definition isString (p : Params) : bool :=
  match p with PString _ => true | PObject _ => false end.

Definition isObject (p : Params) : bool :=
  match p with PString _ => false | PObject _ => true end.

Definition isEmpty (p : Params) : bool :=
  match p with
  | PString EmptyString => true
  | PString _ => false
  | PObject [] => true
  | PObject _ => false
  end.

Record RequestOptions : Type := mkRequestOptions {
  appendToResponse : option string;
  timeout : option Z
}.

(** The default [options = {}]. *)
Definition no_options : RequestOptions :=
  {| appendToResponse := None; timeout := None |}.

Record MovieDbOptions : Type := mkMovieDbOptions {
  useDefaultLimits : bool;
  baseUrl : string
}.

Record LimitOptions : Type := mkLimitOptions {
  remaining : JS.number;
  reset : JS.number
}.

(** The object pushed on the queue at line 140,
    [{ method, endpoint, params, options }].  [method] and [endpoint] are
    [undefined] when [makeRequest] was called without arguments. *)
Record PendingRequest : Type := mkPendingRequest {
  pr_method : option HttpMethod;
  pr_endpoint : option string;
  pr_params : Params;
  pr_options : RequestOptions
}.

(** The object handed to [axios.request]. *)
Record Request : Type := mkRequest {
  rq_method : option HttpMethod;
  rq_baseUrl : string;
  rq_url : string;
  rq_params : dict;
  rq_data : dict;
  rq_timeout : option Z
}.

(** What the rejection handler reads of the error: [err.response], its
    [status] and its [header] table, each possibly [undefined]. *)
Record ErrResponse : Type := mkErrResponse {
  status : option Z;
  header : option dict
}.

Record AxiosError : Type := mkAxiosError {
  response : option ErrResponse
}.

(** The instance fields of the class. *)
Record MovieDb : Type := mkMovieDb {
  apiKey : string;
  limit : LimitOptions;
  requestQueue : list PendingRequest;
  requestLimitTimeout : option nat;
  options : MovieDbOptions;
  sessionId : option string
}.

(** A pending timer: its handle and its delay, [None] when [setTimeout]
    was given none.  The callback is always [checkQueue]. *)
Record Timer : Type := mkTimer {
  handle : nat;
  delay_ms : option JS.number
}.

(** The instance together with what it acts on: the pending timers, the
    requests handed to the transport (oldest first) and the errors of the
    promises made by [Promise.reject].  [pushed] and [shifted] are
    history variables: every object ever put on the queue and every
    object ever taken off it, oldest first; no code reads them. *)
Record World : Type := mkWorld {
  this : MovieDb;
  timers : list Timer;
  next_handle : nat;
  sent : list Request;
  rejections : list AxiosError;
  pushed : list PendingRequest;
  shifted : list PendingRequest
}.

(** ** The monad of method bodies *)

Inductive Error : Type :=
| TypeError (msg : string)
| ReferenceError (name : string).

Inductive completion (A : Type) : Type :=
| Normal (a : A)
| Throw (e : Error).
Arguments Normal {A} a.
Arguments Throw {A} e.

(** [None] is a run that exhausted its fuel. *)
Definition M (A : Type) : Type := World -> option (completion A * World).

Definition ret {A} (a : A) : M A := fun w => Some (Normal a, w).

Definition throw {A} (e : Error) : M A := fun w => Some (Throw e, w).

Definition out_of_fuel {A} : M A := fun _ => None.

Definition bind {A B} (m : M A) (k : A -> M B) : M B :=
  fun w =>
    match m w with
    | Some (Normal a, w') => k a w'
    | Some (Throw e, w') => Some (Throw e, w')
    | None => None
    end.

Declare Scope js_scope.
Delimit Scope js_scope with js.
Notation "x <- m ;; k" := (bind m (fun x => k))
  (at level 61, m at next level, right associativity) : js_scope.
Notation "m ;; k" := (bind m (fun _ => k))
  (at level 61, right associativity) : js_scope.
Local Open Scope js_scope.

Definition lift {A} (c : completion A) : M A :=
  fun w => Some (c, w).

Definition get_this : M MovieDb := fun w => Some (Normal (this w), w).

Definition set_this (f : MovieDb -> MovieDb) : M unit :=
  fun w => Some (Normal tt,
    {| this := f (this w); timers := timers w; next_handle := next_handle w;
       sent := sent w; rejections := rejections w;
       pushed := pushed w; shifted := shifted w |}).

Definition with_limit (l : LimitOptions) (t : MovieDb) : MovieDb :=
  {| apiKey := apiKey t; limit := l; requestQueue := requestQueue t;
     requestLimitTimeout := requestLimitTimeout t; options := options t;
     sessionId := sessionId t |}.

Definition with_remaining (n : JS.number) (t : MovieDb) : MovieDb :=
  with_limit {| remaining := n; reset := reset (limit t) |} t.

Definition with_reset (n : JS.number) (t : MovieDb) : MovieDb :=
  with_limit {| remaining := remaining (limit t); reset := n |} t.

Definition with_requestQueue (q : list PendingRequest) (t : MovieDb) : MovieDb :=
  {| apiKey := apiKey t; limit := limit t; requestQueue := q;
     requestLimitTimeout := requestLimitTimeout t; options := options t;
     sessionId := sessionId t |}.

Definition with_requestLimitTimeout (h : option nat) (t : MovieDb) : MovieDb :=
  {| apiKey := apiKey t; limit := limit t; requestQueue := requestQueue t;
     requestLimitTimeout := h; options := options t;
     sessionId := sessionId t |}.

(** [setTimeout(this.checkQueue, delay)] and [setTimeout(this.checkQueue)]:
    a fresh handle. *)
Definition setTimeout (delay : option JS.number) : M nat :=
  fun w => Some (Normal (next_handle w),
    {| this := this w;
       timers := timers w ++ [{| handle := next_handle w; delay_ms := delay |}];
       next_handle := S (next_handle w);
       sent := sent w; rejections := rejections w;
       pushed := pushed w; shifted := shifted w |}).

Definition cancel (n : nat) (l : list Timer) : list Timer :=
  filter (fun t => negb (Nat.eqb (handle t) n)) l.

(** [clearTimeout(h)]: nothing happens for [undefined] or a timer that
    is no longer pending. *)
Definition clearTimeout (h : option nat) : M unit :=
  fun w => Some (Normal tt,
    match h with
    | None => w
    | Some n =>
        {| this := this w;
           timers := cancel n (timers w);
           next_handle := next_handle w;
           sent := sent w; rejections := rejections w;
           pushed := pushed w; shifted := shifted w |}
    end).

(** [axios.request(request)]: the request leaves for the transport. *)
Definition axios_request (r : Request) : M unit :=
  fun w => Some (Normal tt,
    {| this := this w; timers := timers w; next_handle := next_handle w;
       sent := sent w ++ [r]; rejections := rejections w;
       pushed := pushed w; shifted := shifted w |}).


(** [this.requestQueue.push(x)] *)
Definition push (x : PendingRequest) : M unit :=
  fun w => Some (Normal tt,
    {| this := with_requestQueue (requestQueue (this w) ++ [x]) (this w);
       timers := timers w; next_handle := next_handle w;
       sent := sent w; rejections := rejections w;
       pushed := pushed w ++ [x]; shifted := shifted w |}).

(** [this.requestQueue.shift()]: [undefined] on an empty queue. *)
Definition shift : M (option PendingRequest) :=
  fun w =>
    match requestQueue (this w) with
    | [] => Some (Normal None, w)
    | x :: q =>
        Some (Normal (Some x),
          {| this := with_requestQueue q (this w);
             timers := timers w; next_handle := next_handle w;
             sent := sent w; rejections := rejections w;
             pushed := pushed w; shifted := shifted w ++ [x] |})
    end.

(** ** [prepareEndpoint]

    The body has no [throw] and none of its operations throws on strings,
    so every run completes normally. *)
Definition prepareEndpoint (endpoint : string) (params : Params) : completion string :=
  (* if (isString(params) && (endpoint.match(/:/g) || []).length === 1) *)
  let endpoint1 :=
    match params with
    | PString s =>
        if Nat.eqb (JS.count_colons endpoint) 1
        then JS.replace_placeholders endpoint s
        else endpoint
    | PObject _ => endpoint
    end in
  (* if (isObject(params) && !isEmpty(params)) *)
  let endpoint2 :=
    match params with
    | PObject o =>
        if negb (isEmpty params)
        then fold_left
               (fun compiled key =>
                  match dict_get o key with
                  | Some v => JS.replace compiled (String ":" key) v
                  | None => compiled
                  end)
               (dict_keys o) endpoint1
        else endpoint1
    | PString _ => endpoint1
    end in
  (* if (isString(params)) *)
  let endpoint3 :=
    match params with
    | PString s =>
        endpoint2 ++ (if JS.startsWith s "?" then EmptyString else "?") ++ s
    | PObject _ => endpoint2
    end in
  Normal endpoint3.

(** ** [makeRequest] and [checkQueue] *)

(** What a method or a handler returns: [undefined], the function
    [this.makeRequest] (the value of [checkQueue]), the promise
    [axios.request(request).catch(...)], or the promise
    [Promise.reject(err)]. *)
Inductive Value : Type :=
| VUndefined
| VMakeRequest
| VPromise (request : Request)
| VRejected (err : AxiosError).

(** [Promise.reject(err)]: a new promise, rejected with [err]. *)
Definition Promise_reject (err : AxiosError) : M Value :=
  fun w => Some (Normal (VRejected err),
    {| this := this w; timers := timers w; next_handle := next_handle w;
       sent := sent w; rejections := rejections w ++ [err];
       pushed := pushed w; shifted := shifted w |}).

(** The first argument of [merge] at lines 167-171: the API key, the
    session id when there is one, the [appendToResponse] option when it
    is supplied. *)
Definition credentials (t : MovieDb) (opts : RequestOptions) : dict :=
  ([("api_key", apiKey t)]
     ++ (match sessionId t with
         | Some (String c s) => [("session_id", String c s)]
         | _ => []
         end)
     ++ (match appendToResponse opts with
         | Some (String c s) => [("append_to_response", String c s)]
         | _ => []
         end))%list.

(** The current-account default of lines 151-155. *)
Definition account_id : Params := PObject [("id", "{account_id}")].

(** Lines 148-180: the request object built for an admitted call. *)
Definition build_request (t : MovieDb) (method : option HttpMethod)
    (endpoint : string) (params : Params) (opts : RequestOptions)
  : completion Request :=
  (* if (endpoint.includes(':id') && isEmpty(params) && this.sessionId) *)
  let params1 :=
    if (JS.includes endpoint ":id" && isEmpty params
        && JS.truthy_string (sessionId t))%bool
    then account_id
    else params in
  (* if (isString(params)) params = {} *)
  let params2 := if isString params1 then PObject [] else params1 in
  let bag := match params2 with PObject o => o | PString _ => [] end in
  let omittedProps := map JS.substr1 (JS.match_colon_letter endpoint) in
  let query := merge (credentials t opts) (omit bag omittedProps) in
  match prepareEndpoint endpoint params2 with
  | Normal url =>
      Normal {| rq_method := method;
                rq_baseUrl := baseUrl (options t);
                rq_url := url;
                rq_params := query;
                rq_data := query;
                rq_timeout := match timeout opts with
                              | Some ms => if ms =? 0 then None else Some ms
                              | None => None
                              end |}
  | Throw e => Throw e
  end.

(** Lines 83-91 of [checkQueue]: cancel the pending wake, then either
    schedule the next one or restore the quota. *)
Definition checkQueue_window (now : Z) : M unit :=
  t <- get_this ;;
  clearTimeout (requestLimitTimeout t) ;;
  let delay := JS.sub (reset (limit t)) (JS.Num now) in
  if JS.gt delay (JS.Num 0)
  then h <- setTimeout (Some delay) ;;
       set_this (with_requestLimitTimeout (Some h))
  else set_this (with_remaining (JS.Num 40)).

(** [makeRequest(method, endpoint, params = {}, options = {})] and
    [checkQueue()], with the [for] loop of lines 94-101 as
    [checkQueue_loop].  An [undefined] argument is [None]; the defaults of
    [params] and [options] are applied by the caller. *)
Fixpoint makeRequest (fuel : nat) (now : Z) (method : option HttpMethod)
    (endpoint : option string) (params : Params) (opts : RequestOptions)
    {struct fuel} : M Value :=
  match fuel with
  | O => out_of_fuel
  | S fuel' =>
      t <- get_this ;;
      if (useDefaultLimits (options t)
          && JS.le (remaining (limit t)) (JS.Num 0))%bool
      then
        (* this.requestQueue.push({ method, endpoint, params, options })
           return this.checkQueue() *)
        push {| pr_method := method; pr_endpoint := endpoint;
                pr_params := params; pr_options := opts |} ;;
        checkQueue fuel' now
      else
        (* this.limit.remaining-- *)
        (if useDefaultLimits (options t)
         then set_this (fun t =>
                with_remaining (JS.sub (remaining (limit t)) (JS.Num 1)) t)
         else ret tt) ;;
        (* endpoint.includes(':id') on an undefined endpoint *)
        e <- match endpoint with
             | Some e => ret e
             | None => throw (TypeError
                 "Cannot read properties of undefined (reading 'includes')")
             end ;;
        t <- get_this ;;
        request <- lift (build_request t method e params opts) ;;
        axios_request request ;;
        ret (VPromise request)
  end

with checkQueue (fuel : nat) (now : Z) {struct fuel} : M Value :=
  match fuel with
  | O => out_of_fuel
  | S fuel' =>
      t <- get_this ;;
      match requestQueue t with
      | [] => ret VUndefined
      | _ :: _ =>
          checkQueue_window now ;;
          t <- get_this ;;
          (if JS.gt (remaining (limit t)) (JS.Num 0)
           then checkQueue_loop fuel' now 0 ;;
                _ <- setTimeout None ;;
                ret tt
           else ret tt) ;;
          ret VMakeRequest
      end
  end

with checkQueue_loop (fuel : nat) (now : Z) (i : Z) {struct fuel} : M unit :=
  match fuel with
  | O => out_of_fuel
  | S fuel' =>
      t <- get_this ;;
      if JS.lt (JS.Num i) (remaining (limit t))
      then
        sendRequest <- shift ;;
        match sendRequest with
        | Some _ =>
            (* this.makeRequest() *)
            _ <- makeRequest fuel' now None None (PObject []) no_options ;;
            (* sendRequest.start(sendRequest.resolve, sendRequest.reject):
               a queued object has no property [start] *)
            throw (TypeError "sendRequest.start is not a function")
        | None => ret tt
        end ;;
        checkQueue_loop fuel' now (i + 1)
      else ret tt
  end.

(** ** The rejection handler of lines 182-209 *)

(** [res.header[name]], which throws when [res.header] is undefined. *)
Definition header_field (res : ErrResponse) (name : string) : M (option string) :=
  match header res with
  | Some h => ret (dict_get h name)
  | None => throw (TypeError
              ("Cannot read properties of undefined (reading '" ++ name ++ "')"))
  end.

(** [err => { ... }].  In the 429 branch the object literal of line 193
    names [createAndStartRequest], [resolve] and [reject], which no scope
    binds: evaluating it throws before [push] and [checkQueue] run. *)
Definition on_rejected (now : Z) (err : AxiosError) : M Value :=
  (* const res = err.response || {} *)
  let res := match response err with
             | Some r => r
             | None => {| status := None; header := None |}
             end in
  t <- get_this ;;
  if (useDefaultLimits (options t)
      && match status res with Some s => s =? 429 | None => false end)%bool
  then
    (if (negb (JS.truthy (reset (limit t)))
         || JS.lt (reset (limit t)) (JS.Num now))%bool
     then
       v <- header_field res "retry-after" ;;
       let retryAfter := JS.parseInt v in
       (* (retryAfter <= 0 ? 0.5 : retryAfter) * 1000, with 0.5 * 1000 = 500 *)
       let ms := if JS.le retryAfter (JS.Num 0)
                 then JS.Num 500
                 else JS.mul retryAfter (JS.Num 1000) in
       set_this (with_reset (JS.add (JS.Num now) ms))
     else ret tt) ;;
    throw (ReferenceError "createAndStartRequest is not defined")
  else
    (if useDefaultLimits (options t)
     then
       v <- header_field res "x-ratelimit-remaining" ;;
       set_this (with_remaining (JS.parseInt v)) ;;
       v <- header_field res "x-ratelimit-reset" ;;
       set_this (with_reset (JS.mul (JS.parseInt v) (JS.Num 1000)))
     else ret tt) ;;
    (* Promise.reject(err) is an expression statement: its promise is
       discarded and the handler returns undefined *)
    _ <- Promise_reject err ;;
    ret VUndefined.

(** How the promise [axios.request(request).catch(handler)] settles. *)
Inductive Reason : Type :=
| Thrown (e : Error)
| Failure (err : AxiosError).

Inductive Settlement (R : Type) : Type :=
| Fulfilled (v : R + Value)
| Rejected (r : Reason)
| Follows (request : Request).
Arguments Fulfilled {R} v.
Arguments Rejected {R} r.
Arguments Follows {R} request.

(** The transport either answers with a response of type [R], which
    fulfils the promise, or fails with an error, which runs the handler.
    An exception of the handler rejects the promise; a promise returned
    by the handler is adopted; any other return value fulfils it. *)
Definition settle {R : Type} (now : Z) (outcome : R + AxiosError)
  : World -> option (Settlement R * World) :=
  fun w =>
    match outcome with
    | inl r => Some (Fulfilled (inl r), w)
    | inr err =>
        match on_rejected now err w with
        | Some (Normal (VRejected e), w') => Some (Rejected (Failure e), w')
        | Some (Normal (VPromise rq), w') => Some (Follows rq, w')
        | Some (Normal v, w') => Some (Fulfilled (inr v), w')
        | Some (Throw e, w') => Some (Rejected (Thrown e), w')
        | None => None
        end
    end.

(** ** The constructor

    Without [useDefaultLimits] the fields [limit] and [requestQueue] stay
    undefined in the source; no code path reads them in that mode, and
    the model fills them with [NaN] and the empty list. *)

Definition new_MovieDb (now : Z) (key : string) (o : MovieDbOptions) : MovieDb :=
  {| apiKey := key;
     options := o;
     limit := if useDefaultLimits o
              then {| remaining := JS.Num 40; reset := JS.Num (now + 10 * 1000) |}
              else {| remaining := JS.NaN; reset := JS.NaN |};
     requestQueue := [];
     requestLimitTimeout := None;
     sessionId := None |}.

Definition new_World (t : MovieDb) : World :=
  {| this := t; timers := []; next_handle := O; sent := []; rejections := [];
     pushed := []; shifted := [] |}.

(** ** Runs of the client

    What happens to an instance: a caller submits a request, a pending
    timer fires (and calls [checkQueue]), or a request in flight fails
    (and the rejection handler runs). *)
Inductive Event : Type :=
| Submit (now : Z) (method : HttpMethod) (endpoint : string)
    (params : Params) (opts : RequestOptions)
| Wake (now : Z) (h : nat)
| Fail (now : Z) (err : AxiosError).

(** The timer [h] leaves the pending timers when it fires; the result
    tells whether it was pending. *)
Definition fire (h : nat) : M bool :=
  fun w =>
    Some (Normal (existsb (fun t => Nat.eqb (handle t) h) (timers w)),
      {| this := this w; timers := cancel h (timers w);
         next_handle := next_handle w;
         sent := sent w; rejections := rejections w;
         pushed := pushed w; shifted := shifted w |}).

(** The world a run leaves behind, whether it returned or threw. *)
Definition after {A} (m : M A) (w : World) : option World :=
  match m w with
  | Some (_, w') => Some w'
  | None => None
  end.

Definition step (fuel : nat) (ev : Event) : World -> option World :=
  match ev with
  | Submit now method endpoint params opts =>
      after (makeRequest fuel now (Some method) (Some endpoint) params opts)
  | Wake now h =>
      after (pending <- fire h ;;
             if pending then checkQueue fuel now else ret VUndefined)
  | Fail now err =>
      after (on_rejected now err)
  end.

Fixpoint run (fuel : nat) (evs : list Event) (w : World) : option World :=
  match evs with
  | [] => Some w
  | ev :: evs' =>
      match step fuel ev w with
      | Some w' => run fuel evs' w'
      | None => None
      end
  end.

(** The queue discipline: what was put on the queue is what was taken off
    it followed by what is still on it, in the same order. *)
Definition fifo (w : World) : Prop :=
  pushed w = (shifted w ++ requestQueue (this w))%list.

(** [w'] continues the history of [w]. *)
Definition extends (w w' : World) : Prop :=
  (fifo w -> fifo w')
  /\ (exists added, pushed w' = pushed w ++ added)%list
  /\ (exists popped, shifted w' = shifted w ++ popped)%list.

(** Every world a computation can end in is related to its start. *)
Definition always {A} (P : World -> World -> Prop) (m : M A) : Prop :=
  forall w c w', m w = Some (c, w') -> P w w'.

(** The test of line 139 under [useDefaultLimits]. *)
Definition exhausted (t : MovieDb) : bool :=
  (useDefaultLimits (options t) && JS.le (remaining (limit t)) (JS.Num 0))%bool.

(** The instance after line 145. *)
Definition decrement (t : MovieDb) : MovieDb :=
  if useDefaultLimits (options t)
  then with_remaining (JS.sub (remaining (limit t)) (JS.Num 1)) t
  else t.

(** The pending timers after [clearTimeout(this.requestLimitTimeout)]. *)
Definition cleared (w : World) : list Timer :=
  match requestLimitTimeout (this w) with
  | None => timers w
  | Some n => cancel n (timers w)
  end.

(** The world after lines 83-91 when the window has not elapsed: the
    next wake is pending. *)
Definition waiting (now : Z) (w : World) : World :=
  {| this := with_requestLimitTimeout (Some (next_handle w)) (this w);
     timers := cleared w ++
                 [{| handle := next_handle w;
                     delay_ms := Some (JS.sub (reset (limit (this w))) (JS.Num now)) |}];
     next_handle := S (next_handle w);
     sent := sent w; rejections := rejections w;
     pushed := pushed w; shifted := shifted w |}.

(** The world after lines 83-91 when the window has elapsed. *)
Definition restored (w : World) : World :=
  {| this := with_remaining (JS.Num 40) (this w);
     timers := cleared w;
     next_handle := next_handle w;
     sent := sent w; rejections := rejections w;
     pushed := pushed w; shifted := shifted w |}.

(** The world after the drainer took [x] off the queue, leaving [q], and
    called [makeRequest] without arguments. *)
Definition taken (x : PendingRequest) (q : list PendingRequest) (w : World) : World :=
  {| this := decrement (with_requestQueue q (this w));
     timers := timers w; next_handle := next_handle w;
     sent := sent w; rejections := rejections w;
     pushed := pushed w; shifted := shifted w ++ [x] |}.

(** The exception of [endpoint.includes(':id')] on an undefined
    [endpoint]. *)
Definition includes_of_undefined : Error :=
  TypeError "Cannot read properties of undefined (reading 'includes')".

(** The world in which [remaining] has become [n]. *)
Definition after_remaining (n : JS.number) (w : World) : World :=
  {| this := with_remaining n (this w);
     timers := timers w; next_handle := next_handle w;
     sent := sent w; rejections := rejections w;
     pushed := pushed w; shifted := shifted w |}.

(** The world in which [reset] has become [n]. *)
Definition after_reset (n : JS.number) (w : World) : World :=
  {| this := with_reset n (this w);
     timers := timers w; next_handle := next_handle w;
     sent := sent w; rejections := rejections w;
     pushed := pushed w; shifted := shifted w |}.

(** The tests of the rejection handler: a 429 under limits (line 185),
    and a [reset] that is unset or in the past (line 188). *)
Definition rate_limited (t : MovieDb) (err : AxiosError) : bool :=
  (useDefaultLimits (options t)
   && match response err with
      | Some res => match status res with Some s => s =? 429 | None => false end
      | None => false
      end)%bool.

Definition stale (now : Z) (t : MovieDb) : bool :=
  (negb (JS.truthy (reset (limit t))) || JS.lt (reset (limit t)) (JS.Num now))%bool.

(** ** Sample instances *)

Definition limited : MovieDbOptions :=
  {| useDefaultLimits := true; baseUrl := "https://api.themoviedb.org/3/" |}.

Definition unlimited : MovieDbOptions :=
  {| useDefaultLimits := false; baseUrl := "https://api.themoviedb.org/3/" |}.

(** A client under limits with [n] requests left until [t]. *)
Definition client (n : JS.number) (t : JS.number) : World :=
  new_World
    (with_limit {| remaining := n; reset := t |} (new_MovieDb 0 "key" limited)).

(** The same with a session. *)
Definition with_sessionId (s : option string) (t : MovieDb) : MovieDb :=
  {| apiKey := apiKey t; limit := limit t; requestQueue := requestQueue t;
     requestLimitTimeout := requestLimitTimeout t; options := options t;
     sessionId := s |}.

(** A rejection with the given status and header table. *)
Definition rejection (s : Z) (h : dict) : AxiosError :=
  {| response := Some {| status := Some s; header := Some h |} |}.

(** ** Vocabulary of the further properties *)

(** The world after lines 83-91, whichever way the window test goes. *)
Definition windowed (now : Z) (w : World) : World :=
  if JS.gt (JS.sub (reset (limit (this w))) (JS.Num now)) (JS.Num 0)
  then waiting now w
  else restored w.

(** The world in which the request [x] has been put on the queue. *)
Definition queued (x : PendingRequest) (w : World) : World :=
  {| this := with_requestQueue (requestQueue (this w) ++ [x]) (this w);
     timers := timers w; next_handle := next_handle w;
     sent := sent w; rejections := rejections w;
     pushed := pushed w ++ [x]; shifted := shifted w |}.

Definition is_submit (ev : Event) : bool :=
  match ev with Submit _ _ _ _ _ => true | _ => false end.

Definition is_fail (ev : Event) : bool :=
  match ev with Fail _ _ => true | _ => false end.

(** The number of submissions among the events. *)
Definition submissions (evs : list Event) : nat :=
  length (filter is_submit evs).

(** The instance after [n] admissions. *)
Fixpoint decrements (n : nat) (t : MovieDb) : MovieDb :=
  match n with
  | O => t
  | S n' => decrements n' (decrement t)
  end.

(** Strings without a colon, without a dollar, made of letters only. *)
Fixpoint colon_free (s : string) : bool :=
  match s with
  | EmptyString => true
  | String c r => (negb (JS.is_colon c) && colon_free r)%bool
  end.

Fixpoint dollar_free (s : string) : bool :=
  match s with
  | EmptyString => true
  | String c r => (negb (Ascii.eqb c "$") && dollar_free r)%bool
  end.

Fixpoint all_letters (s : string) : bool :=
  match s with
  | EmptyString => true
  | String c r => (JS.is_letter c && all_letters r)%bool
  end.

Definition starts_with_letter (s : string) : bool :=
  match s with
  | EmptyString => false
  | String c _ => JS.is_letter c
  end.

(** The quota counter is a number between 0 and the ceiling. *)
Definition in_quota (w : World) : Prop :=
  exists n, remaining (limit (this w)) = JS.Num n /\ 0 <= n <= 40.

(** At most one wake is pending; it is the one [requestLimitTimeout]
    names, and its delay is positive. *)
Definition one_wake (w : World) : Prop :=
  match timers w with
  | [] => True
  | [t] => requestLimitTimeout (this w) = Some (handle t)
           /\ exists d, delay_ms t = Some (JS.Num d) /\ 0 < d
  | _ => False
  end.

(** The request a submission builds on the instance [t]. *)
Definition builds (t : MovieDb) (ev : Event) (rq : Request) : Prop :=
  match ev with
  | Submit _ m e p o => build_request t (Some m) e p o = Normal rq
  | _ => False
  end.

(** Nothing was handed to the transport between [w] and [w']. *)
Definition unsent (w w' : World) : Prop := sent w' = sent w.

(** The pending timers and the wake the instance remembers are the same
    in [w] and [w']. *)
Definition same_wake (w w' : World) : Prop :=
  timers w' = timers w
  /\ requestLimitTimeout (this w') = requestLimitTimeout (this w).

(** The world in which the request [rq] of an admitted call has left
    for the transport. *)
Definition dispatched (rq : Request) (w : World) : World :=
  {| this := decrement (this w); timers := timers w;
     next_handle := next_handle w; sent := sent w ++ [rq];
     rejections := rejections w; pushed := pushed w; shifted := shifted w |}.

(** The world in which the timer [h] has fired. *)
Definition fired (h : nat) (w : World) : World :=
  {| this := this w; timers := cancel h (timers w);
     next_handle := next_handle w;
     sent := sent w; rejections := rejections w;
     pushed := pushed w; shifted := shifted w |}.

(** What a run of [checkQueue] makes of a world: nothing on an empty
    queue; the window step when no quota remains after it; the window
    step and one request taken off the queue when quota remains. *)
Definition drained (now : Z) (w w' : World) : Prop :=
  (requestQueue (this w) = [] /\ w' = w)
  \/ (requestQueue (this w) <> []
      /\ JS.gt (remaining (limit (this (windowed now w)))) (JS.Num 0) = false
      /\ w' = windowed now w)
  \/ (exists x q,
      requestQueue (this w) = x :: q
      /\ JS.gt (remaining (limit (this (windowed now w)))) (JS.Num 0) = true
      /\ w' = taken x q (windowed now w)).

(** What an event makes of a world. *)
Definition stepped (ev : Event) (w w' : World) : Prop :=
  match ev with
  | Submit now m e p o =>
      (exhausted (this w) = false
       /\ exists rq, build_request (this w) (Some m) e p o = Normal rq
                     /\ w' = dispatched rq w)
      \/ (exhausted (this w) = true
          /\ drained now
               (queued {| pr_method := Some m; pr_endpoint := Some e;
                          pr_params := p; pr_options := o |} w) w')
  | Wake now h => w' = fired h w \/ drained now (fired h w) w'
  | Fail now err => exists c, on_rejected now err w = Some (c, w')
  end.

(** ** What the transport delivers

    [axios] puts the header table of a response under [headers].  The
    property [header], which the rejection handler reads at lines 189,
    203 and 204, is undefined on every error [axios] passes to it. *)
Definition from_axios (err : AxiosError) : bool :=
  match response err with
  | Some res => match header res with Some _ => false | None => true end
  | None => true
  end.

Definition axios_event (ev : Event) : bool :=
  match ev with
  | Fail _ err => from_axios err
  | _ => true
  end.

(** The error of a response with the status [s] and the header table
    [headers]: the table is out of the handler's sight. *)
Definition axios_rejection (s : Z) (headers : dict) : AxiosError :=
  {| response := Some {| status := Some s; header := None |} |}.

(** The worlds of a client constructed under limits at the time [t0]:
    whatever submissions, fired timers and failed requests lead to. *)
Definition reachable (t0 : Z) (w : World) : Prop :=
  exists fuel key o s evs,
    useDefaultLimits o = true
    /\ forallb axios_event evs = true
    /\ run (S (S (S (S fuel)))) evs
         (new_World (with_sessionId s (new_MovieDb t0 key o))) = Some w.

(** The timer [h] is pending. *)
Definition pending (h : nat) (w : World) : bool :=
  existsb (fun t => Nat.eqb (handle t) h) (timers w).

(** The two ways into [checkQueue]: from line 142, after the push of a
    submission on an exhausted quota, and from a pending timer that
    fires.  (Line 199 is behind the exception of line 193, and the timer
    of line 103 is never set.)  [w0] is the world in which [checkQueue]
    starts. *)
Definition drain_entry (w w0 : World) : Prop :=
  (exists x, exhausted (this w) = true /\ w0 = queued x w)
  \/ (exists h, pending h w = true /\ w0 = fired h w).

(** Between events: the client is under limits, the counter is in its
    range, at most one wake is pending, and a wake is pending only while
    the quota is exhausted and a request is waiting. *)
Definition steady (w : World) : Prop :=
  useDefaultLimits (options (this w)) = true
  /\ in_quota w
  /\ one_wake w
  /\ (timers w <> [] ->
      JS.gt (remaining (limit (this w))) (JS.Num 0) = false
      /\ requestQueue (this w) <> []).

(** At the start of [checkQueue]: the same, with the quota exhausted and
    a request waiting. *)
Definition armed (w : World) : Prop :=
  useDefaultLimits (options (this w)) = true
  /\ in_quota w
  /\ one_wake w
  /\ JS.gt (remaining (limit (this w))) (JS.Num 0) = false
  /\ requestQueue (this w) <> [].

(** * Properties *)

Example parseInt_5 : JS.parseInt (Some "5") = JS.Num 5.
Proof. reflexivity. Qed.

Example parseInt_hex : JS.parseInt (Some " 0x1f") = JS.Num 31.
Proof. reflexivity. Qed.

Example parseInt_junk : JS.parseInt (Some "soon") = JS.NaN.
Proof. reflexivity. Qed.

Example parseInt_trailing : JS.parseInt (Some "-12px") = JS.Num (-12).
Proof. reflexivity. Qed.

Example replace_dollar :
  JS.replace "movie/:id/x" ":id" "[$&|$`|$'|$$|$1]" = "movie/[:id|movie/|/x|$|$1]/x".
Proof. reflexivity. Qed.

Example replace_placeholders_one :
  JS.replace_placeholders "movie/:id/images" "550" = "movie/550/images".
Proof. reflexivity. Qed.

Example match_colon_letter_id :
  JS.match_colon_letter "list/:id/item/:item_id" = [":i"; ":i"].
Proof. reflexivity. Qed.

(** ** The monad *)

Section Always.
Context {P : World -> World -> Prop}.
Hypothesis P_refl : forall w, P w w.
Hypothesis P_trans : forall w1 w2 w3, P w1 w2 -> P w2 w3 -> P w1 w3.

Lemma always_ret {A} (a : A) : always P (ret a).
Proof. intros w c w' H. inversion H; subst. apply P_refl. Qed.

Lemma always_throw {A} (e : Error) : always P (@throw A e).
Proof. intros w c w' H. inversion H; subst. apply P_refl. Qed.

Lemma always_lift {A} (c : completion A) : always P (lift c).
Proof. intros w c' w' H. inversion H; subst. apply P_refl. Qed.

Lemma always_out_of_fuel {A} : always P (@out_of_fuel A).
Proof. intros w c w' H. discriminate H. Qed.

Lemma always_get_this : always P get_this.
Proof. intros w c w' H. inversion H; subst. apply P_refl. Qed.

Lemma always_bind {A B} (m : M A) (k : A -> M B) :
  always P m -> (forall a, always P (k a)) -> always P (bind m k).
Proof.
  intros Hm Hk w c w' H. unfold bind in H.
  destruct (m w) as [[[a | e] w1] |] eqn:E; try discriminate.
  - eapply P_trans; [eapply Hm; eassumption | eapply Hk; eassumption].
  - inversion H; subst. eapply Hm; eassumption.
Qed.
End Always.

Lemma extends_refl w : extends w w.
Proof.
  split; [tauto | split; exists []; now rewrite app_nil_r].
Qed.

Lemma extends_trans w1 w2 w3 : extends w1 w2 -> extends w2 w3 -> extends w1 w3.
Proof.
  intros (F1 & [a1 A1] & [p1 S1]) (F2 & [a2 A2] & [p2 S2]).
  split; [tauto | split].
  - exists (a1 ++ a2)%list. now rewrite A2, A1, app_assoc.
  - exists (p1 ++ p2)%list. now rewrite S2, S1, app_assoc.
Qed.

(** A step that leaves the queue and the histories alone. *)
Lemma extends_same w w' :
  requestQueue (this w') = requestQueue (this w) ->
  pushed w' = pushed w -> shifted w' = shifted w -> extends w w'.
Proof.
  intros Q A S. unfold extends, fifo. rewrite Q, A, S.
  split; [tauto | split; exists []; now rewrite app_nil_r].
Qed.

Lemma always_set_this (f : MovieDb -> MovieDb) :
  (forall t, requestQueue (f t) = requestQueue t) ->
  always extends (set_this f).
Proof.
  intros Hf w c w' H. inversion H; subst. apply extends_same; simpl; auto.
Qed.

Lemma always_setTimeout d : always extends (setTimeout d).
Proof. intros w c w' H. inversion H; subst. now apply extends_same. Qed.

Lemma always_clearTimeout h : always extends (clearTimeout h).
Proof.
  intros w c w' H. inversion H; subst. destruct h; now apply extends_same.
Qed.

Lemma always_fire h : always extends (fire h).
Proof. intros w c w' H. inversion H; subst. now apply extends_same. Qed.

Lemma always_axios_request r : always extends (axios_request r).
Proof. intros w c w' H. inversion H; subst. now apply extends_same. Qed.

Lemma always_Promise_reject e : always extends (Promise_reject e).
Proof. intros w c w' H. inversion H; subst. now apply extends_same. Qed.

Lemma always_push x : always extends (push x).
Proof.
  intros w c w' H. inversion H; subst. unfold extends, fifo; simpl.
  split; [| split].
  - intros F. now rewrite F, app_assoc.
  - now exists [x].
  - exists []. now rewrite app_nil_r.
Qed.

Lemma always_shift : always extends shift.
Proof.
  intros w c w' H. unfold shift in H.
  destruct (requestQueue (this w)) as [| x q] eqn:Q.
  - inversion H; subst. apply extends_refl.
  - inversion H; subst. unfold extends, fifo; simpl.
    split; [| split].
    + intros F. now rewrite F, Q, <- app_assoc.
    + exists []. now rewrite app_nil_r.
    + now exists [x].
Qed.

Ltac always_step :=
  first
    [ apply (always_bind extends_trans)
    | apply (always_ret extends_refl)
    | apply (always_throw extends_refl)
    | apply (always_lift extends_refl)
    | apply always_out_of_fuel
    | apply (always_get_this extends_refl)
    | apply always_setTimeout
    | apply always_clearTimeout
    | apply always_fire
    | apply always_axios_request
    | apply always_Promise_reject
    | apply always_push
    | apply always_shift
    | apply always_set_this; intros; reflexivity ].

Ltac always_auto :=
  repeat (intros;
          match goal with
          | |- always _ (if ?b then _ else _) => destruct b
          | |- always _ (match ?x with _ => _ end) => destruct x
          | |- _ => always_step
          end).

Lemma always_checkQueue_window now : always extends (checkQueue_window now).
Proof. unfold checkQueue_window. always_auto. Qed.

Lemma always_header_field res name : always extends (header_field res name).
Proof. unfold header_field. always_auto. Qed.

Lemma always_on_rejected now err : always extends (on_rejected now err).
Proof.
  unfold on_rejected.
  repeat (intros;
          match goal with
          | |- always _ (header_field _ _) => apply always_header_field
          | |- always _ (if ?b then _ else _) => destruct b
          | |- _ => always_step
          end).
Qed.

(** The three mutually recursive methods, by induction on the fuel. *)
Lemma always_methods fuel :
  (forall now method endpoint params opts,
      always extends (makeRequest fuel now method endpoint params opts))
  /\ (forall now, always extends (checkQueue fuel now))
  /\ (forall now i, always extends (checkQueue_loop fuel now i)).
Proof.
  induction fuel as [| fuel (IHm & IHc & IHl)].
  - split; [| split]; intros; simpl; apply always_out_of_fuel.
  - split; [| split]; intros; simpl.
    + repeat (intros;
              match goal with
              | |- always _ (checkQueue _ _) => apply IHc
              | |- always _ (if ?b then _ else _) => destruct b
              | |- always _ (match ?x with _ => _ end) => destruct x
              | |- _ => always_step
              end).
    + repeat (intros;
              match goal with
              | |- always _ (checkQueue_loop _ _ _) => apply IHl
              | |- always _ (checkQueue_window _) => apply always_checkQueue_window
              | |- always _ (if ?b then _ else _) => destruct b
              | |- always _ (match ?x with _ => _ end) => destruct x
              | |- _ => always_step
              end).
    + repeat (intros;
              match goal with
              | |- always _ (checkQueue_loop _ _ _) => apply IHl
              | |- always _ (makeRequest _ _ _ _ _ _) => apply IHm
              | |- always _ (if ?b then _ else _) => destruct b
              | |- always _ (match ?x with _ => _ end) => destruct x
              | |- _ => always_step
              end).
Qed.

Lemma extends_step fuel ev w w' : step fuel ev w = Some w' -> extends w w'.
Proof.
  destruct ev as [now m e p o | now h | now err]; unfold step, after; intros H.
  - destruct (makeRequest fuel now (Some m) (Some e) p o w) as [[c w1] |] eqn:E;
      inversion H; subst.
    eapply (proj1 (always_methods fuel)); eassumption.
  - match type of H with
    | match ?m w with _ => _ end = _ =>
        assert (A : always extends m); [| destruct (m w) as [[c w1] |] eqn:E ]
    end.
    + always_auto. apply (proj1 (proj2 (always_methods fuel))).
    + inversion H; subst. eapply A; eassumption.
    + discriminate.
  - destruct (on_rejected now err w) as [[c w1] |] eqn:E; inversion H; subst.
    eapply always_on_rejected; eassumption.
Qed.

Lemma extends_run fuel evs : forall w w', run fuel evs w = Some w' -> extends w w'.
Proof.
  induction evs as [| ev evs IH]; simpl; intros w w' H.
  - inversion H; subst. apply extends_refl.
  - destruct (step fuel ev w) as [w1 |] eqn:E; [| discriminate].
    eapply extends_trans; [eapply extends_step; eassumption | now apply IH].
Qed.

(** ** Admission *)

Arguments build_request : simpl never.

Lemma build_request_normal t m e p o :
  exists rq, build_request t m e p o = Normal rq.
Proof. unfold build_request, prepareEndpoint. eexists. reflexivity. Qed.

Lemma build_request_admit t m e p o :
  build_request (decrement t) m e p o = build_request t m e p o.
Proof. unfold decrement. destruct (useDefaultLimits (options t)); reflexivity. Qed.

(** An admitted call with an endpoint hands one request to the
    transport and returns its promise. *)
Lemma makeRequest_admitted fuel now m e p o w rq :
  exhausted (this w) = false ->
  build_request (this w) m e p o = Normal rq ->
  makeRequest (S fuel) now m (Some e) p o w =
    Some (Normal (VPromise rq),
          {| this := decrement (this w); timers := timers w;
             next_handle := next_handle w; sent := sent w ++ [rq];
             rejections := rejections w; pushed := pushed w; shifted := shifted w |}).
Proof.
  intros X B. unfold exhausted in X. rewrite <- build_request_admit in B.
  unfold decrement in *. destruct w as [t ts nh se dr pu sh].
  cbn -[build_request] in *. unfold bind at 1. cbn -[build_request]. rewrite X.
  destruct (useDefaultLimits (options t)); unfold bind; cbn -[build_request] in *;
    rewrite B; reflexivity.
Qed.

(** An admitted call without an endpoint throws after the decrement. *)
Lemma makeRequest_undefined fuel now m p o w :
  exhausted (this w) = false ->
  makeRequest (S fuel) now m None p o w =
    Some (Throw (TypeError
            "Cannot read properties of undefined (reading 'includes')"),
          {| this := decrement (this w); timers := timers w;
             next_handle := next_handle w; sent := sent w;
             rejections := rejections w; pushed := pushed w; shifted := shifted w |}).
Proof.
  intros X. unfold exhausted in X. unfold decrement.
  destruct w as [t ts nh se dr pu sh].
  cbn -[build_request] in *. unfold bind at 1. cbn -[build_request]. rewrite X.
  destruct (useDefaultLimits (options t)); reflexivity.
Qed.

(** A call on an exhausted quota puts the request on the queue and
    becomes [checkQueue]. *)
Lemma makeRequest_exhausted fuel now m e p o w :
  exhausted (this w) = true ->
  makeRequest (S fuel) now m e p o w =
    checkQueue fuel now
      {| this := with_requestQueue
                   (requestQueue (this w) ++
                      [{| pr_method := m; pr_endpoint := e;
                          pr_params := p; pr_options := o |}]) (this w);
         timers := timers w; next_handle := next_handle w; sent := sent w;
         rejections := rejections w;
         pushed := pushed w ++
                     [{| pr_method := m; pr_endpoint := e;
                         pr_params := p; pr_options := o |}];
         shifted := shifted w |}.
Proof.
  intros X. unfold exhausted in X.
  cbn -[build_request checkQueue]. unfold bind at 1. cbn -[build_request checkQueue].
  rewrite X. reflexivity.
Qed.

(** ** The drainer *)

Lemma checkQueue_window_wait now w :
  JS.gt (JS.sub (reset (limit (this w))) (JS.Num now)) (JS.Num 0) = true ->
  checkQueue_window now w = Some (Normal tt, waiting now w).
Proof.
  intros D. unfold checkQueue_window, waiting, cleared.
  destruct w as [t ts nh se dr pu sh]. cbn in *. unfold bind. cbn.
  rewrite D. destruct (requestLimitTimeout t); reflexivity.
Qed.

Lemma checkQueue_window_elapsed now w :
  JS.gt (JS.sub (reset (limit (this w))) (JS.Num now)) (JS.Num 0) = false ->
  checkQueue_window now w = Some (Normal tt, restored w).
Proof.
  intros D. unfold checkQueue_window, restored, cleared.
  destruct w as [t ts nh se dr pu sh]. cbn in *. unfold bind. cbn.
  rewrite D. destruct (requestLimitTimeout t); reflexivity.
Qed.

Lemma lt_not_exhausted i t q :
  0 <= i ->
  JS.lt (JS.Num i) (remaining (limit t)) = true ->
  exhausted (with_requestQueue q t) = false.
Proof.
  intros I L. unfold exhausted. cbn.
  destruct (remaining (limit t)) as [r |]; cbn in *; [| discriminate].
  apply Z.ltb_lt in L. apply andb_false_iff. right. apply Z.leb_gt. lia.
Qed.

(** The equations of the drainer at a positive fuel. *)
Lemma checkQueue_loop_eq fuel now i :
  checkQueue_loop (S fuel) now i =
    (t <- get_this ;;
     if JS.lt (JS.Num i) (remaining (limit t))
     then
       sendRequest <- shift ;;
       match sendRequest with
       | Some _ =>
           _ <- makeRequest fuel now None None (PObject []) no_options ;;
           throw (TypeError "sendRequest.start is not a function")
       | None => ret tt
       end ;;
       checkQueue_loop fuel now (i + 1)
     else ret tt).
Proof. reflexivity. Qed.

Lemma checkQueue_eq fuel now :
  checkQueue (S fuel) now =
    (t <- get_this ;;
     match requestQueue t with
     | [] => ret VUndefined
     | _ :: _ =>
         checkQueue_window now ;;
         t <- get_this ;;
         (if JS.gt (remaining (limit t)) (JS.Num 0)
          then checkQueue_loop fuel now 0 ;;
               _ <- setTimeout None ;;
               ret tt
          else ret tt) ;;
         ret VMakeRequest
     end).
Proof. reflexivity. Qed.

(** An iteration of the loop on a non-empty queue takes the head off and
    throws in [makeRequest()]. *)
Lemma checkQueue_loop_takes fuel now i x q w :
  0 <= i ->
  JS.lt (JS.Num i) (remaining (limit (this w))) = true ->
  requestQueue (this w) = x :: q ->
  checkQueue_loop (S (S fuel)) now i w =
    Some (Throw includes_of_undefined, taken x q w).
Proof.
  intros I L Q.
  pose proof (lt_not_exhausted i (this w) q I L) as X.
  rewrite checkQueue_loop_eq. unfold bind at 1. unfold get_this at 1.
  rewrite L. unfold bind at 1. unfold bind at 1. unfold shift. rewrite Q.
  unfold bind at 1. rewrite makeRequest_undefined by exact X.
  reflexivity.
Qed.

Lemma checkQueue_loop_done fuel now i w :
  JS.lt (JS.Num i) (remaining (limit (this w))) = false ->
  checkQueue_loop (S fuel) now i w = Some (Normal tt, w).
Proof.
  intros L. rewrite checkQueue_loop_eq. unfold bind at 1. unfold get_this at 1.
  rewrite L. reflexivity.
Qed.

Lemma checkQueue_empty fuel now w :
  requestQueue (this w) = [] ->
  checkQueue (S fuel) now w = Some (Normal VUndefined, w).
Proof.
  intros Q. rewrite checkQueue_eq. unfold bind at 1. unfold get_this at 1.
  rewrite Q. reflexivity.
Qed.

(** On a non-empty queue [checkQueue] runs lines 83-91 and then, when no
    quota remains, returns. *)
Lemma checkQueue_returns fuel now w w1 :
  requestQueue (this w) <> [] ->
  checkQueue_window now w = Some (Normal tt, w1) ->
  JS.gt (remaining (limit (this w1))) (JS.Num 0) = false ->
  checkQueue (S fuel) now w = Some (Normal VMakeRequest, w1).
Proof.
  intros Q W G. rewrite checkQueue_eq. unfold bind at 1. unfold get_this at 1.
  destruct (requestQueue (this w)) as [| x q]; [congruence |].
  unfold bind at 1. rewrite W. unfold bind at 1. unfold get_this at 1.
  rewrite G. reflexivity.
Qed.

(** When quota remains it takes the head of the queue off and throws. *)
Lemma checkQueue_takes fuel now w w1 x q :
  checkQueue_window now w = Some (Normal tt, w1) ->
  requestQueue (this w1) = x :: q ->
  JS.gt (remaining (limit (this w1))) (JS.Num 0) = true ->
  checkQueue (S (S (S fuel))) now w =
    Some (Throw includes_of_undefined, taken x q w1).
Proof.
  intros W Q G. rewrite checkQueue_eq. unfold bind at 1. unfold get_this at 1.
  assert (Q0 : requestQueue (this w) = requestQueue (this w1)).
  { destruct (JS.gt (JS.sub (reset (limit (this w))) (JS.Num now)) (JS.Num 0)) eqn:D.
    - rewrite checkQueue_window_wait in W by exact D. inversion W. reflexivity.
    - rewrite checkQueue_window_elapsed in W by exact D. inversion W. reflexivity. }
  rewrite Q0, Q.
  unfold bind at 1. rewrite W. unfold bind at 1. unfold get_this at 1.
  rewrite G. unfold bind at 1. unfold bind at 1.
  rewrite (checkQueue_loop_takes fuel now 0 x q w1) by (try lia; assumption).
  reflexivity.
Qed.

(** ** Every run ends *)

Lemma checkQueue_window_total now w :
  exists w1, checkQueue_window now w = Some (Normal tt, w1)
             /\ requestQueue (this w1) = requestQueue (this w).
Proof.
  destruct (JS.gt (JS.sub (reset (limit (this w))) (JS.Num now)) (JS.Num 0)) eqn:D.
  - exists (waiting now w). split; [now apply checkQueue_window_wait | reflexivity].
  - exists (restored w). split; [now apply checkQueue_window_elapsed | reflexivity].
Qed.

Lemma checkQueue_total fuel now w :
  exists c w', checkQueue (S (S (S fuel))) now w = Some (c, w').
Proof.
  destruct (requestQueue (this w)) as [| x q] eqn:Q.
  - do 2 eexists. now apply checkQueue_empty.
  - destruct (checkQueue_window_total now w) as (w1 & W & Q1).
    destruct (JS.gt (remaining (limit (this w1))) (JS.Num 0)) eqn:G.
    + do 2 eexists. eapply checkQueue_takes; eauto. now rewrite Q1, Q.
    + do 2 eexists. eapply checkQueue_returns; eauto. congruence.
Qed.

Lemma makeRequest_total fuel now m e p o w :
  exists c w', makeRequest (S (S (S (S fuel)))) now m e p o w = Some (c, w').
Proof.
  destruct (exhausted (this w)) eqn:X.
  - rewrite makeRequest_exhausted by exact X. apply checkQueue_total.
  - destruct e as [e |].
    + destruct (build_request_normal (this w) m e p o) as [rq B].
      do 2 eexists. now apply makeRequest_admitted.
    + do 2 eexists. now apply makeRequest_undefined.
Qed.

Lemma header_field_total res name w :
  exists c, header_field res name w = Some (c, w).
Proof. unfold header_field. destruct (header res); eexists; reflexivity. Qed.

Lemma on_rejected_total now err w :
  exists c w', on_rejected now err w = Some (c, w').
Proof.
  unfold on_rejected, header_field.
  destruct w as [t ts nh se dr pu sh]. unfold bind, get_this. cbn.
  destruct (useDefaultLimits (options t)); cbn.
  - destruct (match status _ with Some s => s =? 429 | None => false end); cbn.
    + destruct (negb (JS.truthy (reset (limit t))) || JS.lt (reset (limit t)) (JS.Num now))%bool;
        cbn; [| do 2 eexists; reflexivity].
      destruct (header _); cbn; do 2 eexists; reflexivity.
    + destruct (header _); cbn; do 2 eexists; reflexivity.
  - do 2 eexists; reflexivity.
Qed.

Lemma step_total fuel ev w :
  exists w', step (S (S (S (S fuel)))) ev w = Some w'.
Proof.
  destruct ev as [now m e p o | now h | now err]; unfold step, after.
  - destruct (makeRequest_total fuel now (Some m) (Some e) p o w) as (c & w' & E).
    rewrite E. eauto.
  - unfold bind, fire.
    destruct (existsb _ (timers w)).
    + match goal with
      | |- context [checkQueue _ now ?w1] =>
          destruct (checkQueue_total (S fuel) now w1) as (c & w' & E)
      end.
      rewrite E. eauto.
    + cbn. eauto.
  - destruct (on_rejected_total now err w) as (c & w' & E). rewrite E. eauto.
Qed.

Lemma run_total fuel evs : forall w,
  exists w', run (S (S (S (S fuel)))) evs w = Some w'.
Proof.
  induction evs as [| ev evs IH]; intros w; simpl.
  - eauto.
  - destruct (step_total fuel ev w) as (w1 & E). rewrite E. apply IH.
Qed.

(** ** Admission against the quota *)

Lemma gt_sub_now (r : JS.number) (now : Z) :
  JS.gt (JS.sub r (JS.Num now)) (JS.Num 0) = JS.gt r (JS.Num now).
Proof.
  destruct r as [z |]; cbn; [| reflexivity].
  destruct (Z.ltb_spec 0 (z - now)), (Z.ltb_spec now z); auto; lia.
Qed.

(** C1.  For every submission under rate-limiting: if [remaining] is 0
    and [reset] is in the future, the request is not executed but
    appended to the pending queue, whose length grows by exactly one,
    and [remaining] is unchanged; if [remaining] is positive, the request
    is admitted (handed to the transport) and [remaining] is decremented
    by exactly one. *)
Theorem makeRequest_quota (fuel : nat) (now : Z) (m : HttpMethod) (e : string)
    (p : Params) (o : RequestOptions) (w : World) (n : Z) :
  useDefaultLimits (options (this w)) = true ->
  remaining (limit (this w)) = JS.Num n ->
  0 <= n ->
  (n = 0 -> JS.gt (reset (limit (this w))) (JS.Num now) = true) ->
  exists v w',
    makeRequest (S (S fuel)) now (Some m) (Some e) p o w = Some (Normal v, w')
    /\ if n =? 0
       then v = VMakeRequest
            /\ requestQueue (this w') =
                 (requestQueue (this w) ++
                    [{| pr_method := Some m; pr_endpoint := Some e;
                        pr_params := p; pr_options := o |}])%list
            /\ length (requestQueue (this w')) = S (length (requestQueue (this w)))
            /\ limit (this w') = limit (this w)
            /\ sent w' = sent w
       else exists rq,
            v = VPromise rq
            /\ build_request (this w) (Some m) e p o = Normal rq
            /\ sent w' = (sent w ++ [rq])%list
            /\ remaining (limit (this w')) = JS.Num (n - 1)
            /\ reset (limit (this w')) = reset (limit (this w))
            /\ requestQueue (this w') = requestQueue (this w).
Proof.
  intros U R N F.
  destruct (Z.eqb_spec n 0) as [Z0 | NZ].
  - subst n. specialize (F eq_refl).
    assert (X : exhausted (this w) = true).
    { unfold exhausted. now rewrite U, R. }
    rewrite makeRequest_exhausted by exact X.
    match goal with
    | |- context [checkQueue _ now ?w1] => set (w1' := w1)
    end.
    exists VMakeRequest, (waiting now w1'). split.
    + apply checkQueue_returns.
      * subst w1'. cbn. destruct (requestQueue (this w)); discriminate.
      * apply checkQueue_window_wait. rewrite gt_sub_now. exact F.
      * subst w1'. cbn. now rewrite R.
    + subst w1'. cbn. repeat split; try reflexivity.
      rewrite length_app. cbn. lia.
  - assert (X : exhausted (this w) = false).
    { unfold exhausted. rewrite U, R. cbn. apply Z.leb_gt. lia. }
    destruct (build_request_normal (this w) (Some m) e p o) as [rq B].
    eexists (VPromise rq), _.
    split; [apply makeRequest_admitted; [exact X | exact B] |].
    exists rq. unfold decrement. rewrite U. cbn. rewrite R.
    repeat split; auto.
Qed.

(** An exhausted client queues the request; a client with three requests
    left sends it and has two left. *)
Lemma makeRequest_quota_witness :
  (exists w',
     makeRequest 2 1000 (Some Get) (Some "movie/550") (PObject []) no_options
       (client (JS.Num 0) (JS.Num 5000)) = Some (Normal VMakeRequest, w')
     /\ length (requestQueue (this w')) = 1%nat
     /\ remaining (limit (this w')) = JS.Num 0
     /\ sent w' = [])
  /\ (exists rq w',
     makeRequest 2 1000 (Some Get) (Some "movie/550") (PObject []) no_options
       (client (JS.Num 3) (JS.Num 5000)) = Some (Normal (VPromise rq), w')
     /\ remaining (limit (this w')) = JS.Num 2
     /\ sent w' = [rq]).
Proof.
  split.
  - destruct (makeRequest_quota 0 1000 Get "movie/550" (PObject []) no_options
                (client (JS.Num 0) (JS.Num 5000)) 0)
      as (v & w' & E & V & Q & L & Li & S);
      [reflexivity | reflexivity | lia | reflexivity |].
    exists w'. subst v. rewrite Li, S. repeat split; auto.
  - destruct (makeRequest_quota 0 1000 Get "movie/550" (PObject []) no_options
                (client (JS.Num 3) (JS.Num 5000)) 3)
      as (v & w' & E & rq & V & B & S & Re & _);
      [reflexivity | reflexivity | lia | discriminate |].
    exists rq, w'. subst v. rewrite Re, S. repeat split; auto.
Defined.

(** ** The window *)

(** C2, as the code has it.  For every run of the window step of the
    drainer (lines 83-91) with [now >= reset], [remaining] is restored to
    the ceiling 40 and [reset] is left as it was; nothing advances it to
    a next window, so a second run in the same window restores
    [remaining] again. *)
Theorem checkQueue_window_restores (now : Z) (w : World) (r : Z) :
  reset (limit (this w)) = JS.Num r ->
  r <= now ->
  exists w',
    checkQueue_window now w = Some (Normal tt, w')
    /\ remaining (limit (this w')) = JS.Num 40
    /\ reset (limit (this w')) = JS.Num r
    /\ requestQueue (this w') = requestQueue (this w)
    /\ sent w' = sent w
    /\ forall (n : JS.number) (later : Z), now <= later ->
       exists w'',
         checkQueue_window later (after_remaining n w') = Some (Normal tt, w'')
         /\ remaining (limit (this w'')) = JS.Num 40
         /\ reset (limit (this w'')) = JS.Num r.
Proof.
  intros R L.
  assert (E : forall later w0, now <= later -> reset (limit (this w0)) = JS.Num r ->
              checkQueue_window later w0 = Some (Normal tt, restored w0)).
  { intros later w0 La R0. apply checkQueue_window_elapsed.
    rewrite gt_sub_now, R0. cbn. apply Z.ltb_ge. lia. }
  exists (restored w). split; [apply E; [lia | exact R] |].
  do 4 (split; [cbn; auto |]).
  intros n later La. exists (restored (after_remaining n (restored w))).
  split; [apply E; [exact La | exact R] |]. cbn. auto.
Qed.

Lemma checkQueue_window_restores_witness :
  exists w',
    checkQueue_window 2000 (client (JS.Num 0) (JS.Num 1000)) = Some (Normal tt, w')
    /\ remaining (limit (this w')) = JS.Num 40
    /\ reset (limit (this w')) = JS.Num 1000.
Proof.
  destruct (checkQueue_window_restores 2000 (client (JS.Num 0) (JS.Num 1000)) 1000)
    as (w' & E & Re & Rs & _); [reflexivity | lia |].
  exists w'. auto.
Defined.

(** The claim of C2 fails on the code: after the window step at a time
    past [reset], [reset] is where it was, not in a next window; and once
    a request has been admitted (39 left), a second window step at the
    same time restores the ceiling a second time. *)
Lemma checkQueue_window_restores_twice :
  exists w1 rq w2 w3,
    checkQueue_window 2000 (client (JS.Num 0) (JS.Num 1000)) = Some (Normal tt, w1)
    /\ remaining (limit (this w1)) = JS.Num 40
    /\ reset (limit (this w1)) = JS.Num 1000
    /\ JS.gt (reset (limit (this w1))) (JS.Num 2000) = false
    /\ makeRequest 1 2000 (Some Get) (Some "movie/550") (PObject []) no_options w1
       = Some (Normal (VPromise rq), w2)
    /\ remaining (limit (this w2)) = JS.Num 39
    /\ checkQueue_window 2000 w2 = Some (Normal tt, w3)
    /\ remaining (limit (this w3)) = JS.Num 40.
Proof.
  do 4 eexists. repeat (split; [lazy; reflexivity |]). lazy; reflexivity.
Qed.

(** ** The rejection handler *)

(** The milliseconds of line 190. *)
Lemma retry_after_ms (r : Z) :
  (if JS.le (JS.Num r) (JS.Num 0) then JS.Num 500 else JS.mul (JS.Num r) (JS.Num 1000))
  = JS.Num (Z.max (1000 * r) 500).
Proof.
  unfold JS.le, JS.mul. destruct (Z.leb_spec r 0); f_equal; lia.
Qed.

(** A 429 under limits: [reset] is set when stale, and then the object
    literal of line 193 throws. *)
Lemma on_rejected_429 now err res h w :
  rate_limited (this w) err = true ->
  response err = Some res ->
  header res = Some h ->
  on_rejected now err w =
    Some (Throw (ReferenceError "createAndStartRequest is not defined"),
          if stale now (this w)
          then after_reset
                 (JS.add (JS.Num now)
                    (if JS.le (JS.parseInt (dict_get h "retry-after")) (JS.Num 0)
                     then JS.Num 500
                     else JS.mul (JS.parseInt (dict_get h "retry-after")) (JS.Num 1000)))
                 w
          else w).
Proof.
  unfold rate_limited, stale, on_rejected, header_field. intros RL Re H.
  rewrite Re in *. rewrite H.
  destruct w as [t ts nh se dr pu sh]. unfold bind, get_this. cbn -[JS.parseInt] in *.
  rewrite RL.
  destruct (negb (JS.truthy (reset (limit t))) || JS.lt (reset (limit t)) (JS.Num now))%bool;
    reflexivity.
Qed.

(** Any other failure under limits, with a header table: the quota is
    overwritten with what [parseInt] makes of the two headers, and the
    handler returns [undefined]. *)
Lemma on_rejected_feedback now err res h w :
  useDefaultLimits (options (this w)) = true ->
  rate_limited (this w) err = false ->
  response err = Some res ->
  header res = Some h ->
  on_rejected now err w =
    Some (Normal VUndefined,
          {| this := with_limit
                       {| remaining := JS.parseInt (dict_get h "x-ratelimit-remaining");
                          reset := JS.mul (JS.parseInt (dict_get h "x-ratelimit-reset"))
                                     (JS.Num 1000) |} (this w);
             timers := timers w; next_handle := next_handle w;
             sent := sent w; rejections := rejections w ++ [err];
             pushed := pushed w; shifted := shifted w |}).
Proof.
  unfold rate_limited, on_rejected, header_field. intros U RL Re H.
  rewrite Re in *. rewrite H.
  destruct w as [t ts nh se dr pu sh]. unfold bind, get_this. cbn -[JS.parseInt] in *.
  rewrite RL, U. reflexivity.
Qed.

(** Under limits a failure without a header table, such as a network
    error, throws at line 203 (or 189). *)
Lemma on_rejected_without_header now err w :
  useDefaultLimits (options (this w)) = true ->
  rate_limited (this w) err = false ->
  match response err with Some res => header res = None | None => True end ->
  on_rejected now err w =
    Some (Throw (TypeError
            "Cannot read properties of undefined (reading 'x-ratelimit-remaining')"),
          w).
Proof.
  unfold rate_limited, on_rejected, header_field. intros U RL H.
  destruct w as [t ts nh se dr pu sh]. unfold bind, get_this. cbn in *.
  destruct (response err) as [res |]; cbn in *.
  - rewrite RL, U, H. reflexivity.
  - rewrite RL, U. reflexivity.
Qed.

(** Without limits the handler only makes the discarded promise. *)
Lemma on_rejected_unlimited now err w :
  useDefaultLimits (options (this w)) = false ->
  on_rejected now err w =
    Some (Normal VUndefined,
          {| this := this w; timers := timers w; next_handle := next_handle w;
             sent := sent w; rejections := rejections w ++ [err];
             pushed := pushed w; shifted := shifted w |}).
Proof.
  unfold on_rejected. intros U.
  destruct w as [t ts nh se dr pu sh]. unfold bind, get_this. cbn in *.
  rewrite U. reflexivity.
Qed.

(** C6 on the code.  A request that fails with anything but a 429 under
    limits is not retried and not queued, but its error does not reach
    the caller either: the promise of [makeRequest] is never rejected
    with the error.  Without limits it is fulfilled with [undefined]. *)
Theorem settle_failure_not_rejected {R : Type} (now : Z) (err : AxiosError)
    (w : World) :
  rate_limited (this w) err = false ->
  exists (s : Settlement R) w',
    settle now (inr err) w = Some (s, w')
    /\ s <> Rejected (Failure err)
    /\ sent w' = sent w
    /\ requestQueue (this w') = requestQueue (this w)
    /\ (useDefaultLimits (options (this w)) = false ->
        s = Fulfilled (inr VUndefined)).
Proof.
  intros RL. unfold settle.
  destruct (useDefaultLimits (options (this w))) eqn:U.
  - destruct (response err) as [res |] eqn:Re.
    + destruct (header res) as [h |] eqn:H.
      * rewrite (on_rejected_feedback now err res h w U RL Re H).
        do 2 eexists. split; [reflexivity |].
        repeat split; try reflexivity; discriminate.
      * rewrite (on_rejected_without_header now err w U RL) by (now rewrite Re).
        do 2 eexists. split; [reflexivity |].
        repeat split; try reflexivity; discriminate.
    + rewrite (on_rejected_without_header now err w U RL) by (now rewrite Re).
      do 2 eexists. split; [reflexivity |].
      repeat split; try reflexivity; discriminate.
  - rewrite (on_rejected_unlimited now err w U).
    do 2 eexists. split; [reflexivity |].
    repeat split; try reflexivity; discriminate.
Qed.

(** A 404 on a client without limits: the caller's promise is fulfilled
    with [undefined]. *)
Lemma settle_failure_not_rejected_witness :
  exists w',
    settle (R := unit) 1000 (inr (rejection 404 []))
      (new_World (new_MovieDb 0 "key" unlimited))
    = Some (Fulfilled (inr VUndefined), w').
Proof.
  destruct (settle_failure_not_rejected (R := unit) 1000 (rejection 404 [])
              (new_World (new_MovieDb 0 "key" unlimited)) eq_refl)
    as (s & w' & E & _ & _ & _ & F).
  exists w'. rewrite <- (F eq_refl). exact E.
Defined.

(** ** The endpoint resolver *)

(** C8, as the code has it.  For every endpoint template containing more
    than one placeholder (more than one colon), resolving it with a
    string bag does not fail: no placeholder is substituted, not even
    partially, and the result is the template followed by the string as a
    query string, with a question mark in front unless the string starts
    with one. *)
Theorem prepareEndpoint_scalar_many (endpoint s : string) :
  (1 < JS.count_colons endpoint)%nat ->
  prepareEndpoint endpoint (PString s)
  = Normal (endpoint ++ (if JS.startsWith s "?" then EmptyString else "?") ++ s).
Proof.
  intros C. unfold prepareEndpoint.
  destruct (Nat.eqb_spec (JS.count_colons endpoint) 1) as [E | _]; [lia | reflexivity].
Qed.

Lemma prepareEndpoint_scalar_many_witness :
  prepareEndpoint "list/:list_id/item/:item_id" (PString "?page=2")
  = Normal "list/:list_id/item/:item_id?page=2".
Proof.
  apply (prepareEndpoint_scalar_many "list/:list_id/item/:item_id" "?page=2").
  cbn. lia.
Defined.

(** The claim of C8 fails on the code: a template with two placeholders
    and the string bag [7] is resolved without any error. *)
Lemma prepareEndpoint_scalar_many_returns :
  JS.count_colons "list/:list_id/item/:item_id" = 2%nat
  /\ prepareEndpoint "list/:list_id/item/:item_id" (PString "7")
     = Normal "list/:list_id/item/:item_id?7"
  /\ forall e : Error,
       prepareEndpoint "list/:list_id/item/:item_id" (PString "7") <> Throw e.
Proof. repeat split; try reflexivity. intros e. discriminate. Qed.

(** ** The query *)

(** C9 on the code.  The keys left out of the query are the first
    letters of the placeholders, not the placeholders: with the template
    [movie/:id] the key [id], consumed by the path, stays in the query
    and the body, and a key [i], which the path does not consume, is
    left out. *)
Theorem makeRequest_query_keeps_consumed_key :
  exists rq w',
    makeRequest 1 1000 (Some Get) (Some "movie/:id")
      (PObject [("id", "550"); ("i", "1"); ("language", "en")]) no_options
      (new_World (new_MovieDb 0 "key" unlimited))
    = Some (Normal (VPromise rq), w')
    /\ sent w' = [rq]
    /\ rq_url rq = "movie/550"
    /\ rq_params rq = [("api_key", "key"); ("id", "550"); ("language", "en")]
    /\ rq_data rq = rq_params rq.
Proof.
  do 2 eexists. repeat (split; [lazy; reflexivity |]). lazy; reflexivity.
Qed.

(** ** A raw string as the bag *)

(** C10, as the code has it.  For every admitted submission whose bag is
    a raw string, the string is discarded before the endpoint is resolved
    and the query is built.  The bag becomes the empty mapping, so the
    path is the template as it stands and the query holds the
    credentials only; except for the empty string with a template
    containing [:id] and an active session, where the bag becomes the
    current-account mapping.  In both cases the raw string is not
    appended to the path and contributes nothing to the query. *)
Theorem makeRequest_string_bag (fuel : nat) (now : Z) (m : option HttpMethod)
    (e s : string) (o : RequestOptions) (w : World) :
  exhausted (this w) = false ->
  exists rq w',
    makeRequest (S fuel) now m (Some e) (PString s) o w
    = Some (Normal (VPromise rq), w')
    /\ sent w' = (sent w ++ [rq])%list
    /\ if (JS.includes e ":id" && JS.truthy_string (sessionId (this w))
           && String.eqb s EmptyString)%bool
       then build_request (this w) m e account_id o = Normal rq
       else rq_url rq = e
            /\ rq_params rq = credentials (this w) o
            /\ rq_data rq = credentials (this w) o.
Proof.
  intros X.
  destruct (build_request_normal (this w) m e (PString s) o) as [rq B].
  eexists rq, _. split; [apply makeRequest_admitted; [exact X | exact B] |].
  split; [reflexivity |].
  unfold build_request in *.
  destruct (JS.includes e ":id"), (JS.truthy_string (sessionId (this w))),
    s as [| c s']; cbn in *; inversion B; subst rq; cbn; auto.
Qed.

Lemma makeRequest_string_bag_witness :
  exists rq w',
    makeRequest 1 1000 (Some Get) (Some "search/movie") (PString "?query=alien")
      no_options (client (JS.Num 3) (JS.Num 5000))
    = Some (Normal (VPromise rq), w')
    /\ rq_url rq = "search/movie"
    /\ rq_params rq = [("api_key", "key")].
Proof.
  destruct (makeRequest_string_bag 0 1000 (Some Get) "search/movie" "?query=alien"
              no_options (client (JS.Num 3) (JS.Num 5000)) eq_refl)
    as (rq & w' & E & _ & U & P & _).
  exists rq, w'. auto.
Defined.

(** The claim of C10 fails on the code: with a session, the template
    [account/:id/lists] and the empty string as the bag, the bag is not
    replaced by the empty mapping (which leaves the template as it
    stands) but by the current-account mapping, which shows in the path
    and in the query. *)
Lemma makeRequest_empty_string_bag :
  let t := with_sessionId (Some "s1") (new_MovieDb 0 "key" unlimited) in
  exists rq w',
    makeRequest 1 1000 (Some Get) (Some "account/:id/lists") (PString EmptyString)
      no_options (new_World t)
    = Some (Normal (VPromise rq), w')
    /\ prepareEndpoint "account/:id/lists" (PObject []) = Normal "account/:id/lists"
    /\ rq_url rq = "account/{account_id}/lists"
    /\ rq_params rq
       = [("api_key", "key"); ("session_id", "s1"); ("id", "{account_id}")].
Proof.
  do 2 eexists. repeat (split; [lazy; reflexivity |]). lazy; reflexivity.
Qed.

(** * Further properties of the code *)

(** ** The cases of [checkQueue] *)

Lemma checkQueue_window_windowed now w :
  checkQueue_window now w = Some (Normal tt, windowed now w).
Proof.
  unfold windowed.
  destruct (JS.gt (JS.sub (reset (limit (this w))) (JS.Num now)) (JS.Num 0)) eqn:D.
  - now apply checkQueue_window_wait.
  - now apply checkQueue_window_elapsed.
Qed.

Lemma windowed_requestQueue now w :
  requestQueue (this (windowed now w)) = requestQueue (this w).
Proof. unfold windowed. destruct (JS.gt _ _); reflexivity. Qed.

(** With fuel for one iteration of the loop, [checkQueue] does one of
    three things: nothing on an empty queue; the window step only, when
    no quota remains after it; the window step, one request taken off
    the queue and an exception, when quota remains. *)
Lemma checkQueue_cases fuel now w :
  (requestQueue (this w) = []
   /\ checkQueue (S (S (S fuel))) now w = Some (Normal VUndefined, w))
  \/ (requestQueue (this w) <> []
      /\ JS.gt (remaining (limit (this (windowed now w)))) (JS.Num 0) = false
      /\ checkQueue (S (S (S fuel))) now w
         = Some (Normal VMakeRequest, windowed now w))
  \/ (exists x q,
      requestQueue (this w) = x :: q
      /\ JS.gt (remaining (limit (this (windowed now w)))) (JS.Num 0) = true
      /\ checkQueue (S (S (S fuel))) now w
         = Some (Throw includes_of_undefined, taken x q (windowed now w))).
Proof.
  destruct (requestQueue (this w)) as [| x q] eqn:Q.
  - left. split; [reflexivity | now apply checkQueue_empty].
  - right.
    destruct (JS.gt (remaining (limit (this (windowed now w)))) (JS.Num 0)) eqn:G.
    + right. exists x, q. split; [reflexivity |]. split; [reflexivity |].
      apply checkQueue_takes; [apply checkQueue_window_windowed | | exact G].
      now rewrite windowed_requestQueue.
    + left. split; [discriminate |]. split; [reflexivity |].
      apply checkQueue_returns; [congruence | apply checkQueue_window_windowed | exact G].
Qed.

(** ** Runs of admitted submissions *)

Lemma decrements_decrement k t :
  decrements k (decrement t) = decrement (decrements k t).
Proof.
  revert t. induction k as [| k IH]; intros t; simpl; [reflexivity | apply IH].
Qed.

Lemma build_request_admits k t m e p o :
  build_request (decrements k t) m e p o = build_request t m e p o.
Proof.
  revert t. induction k as [| k IH]; intros t; simpl; [reflexivity |].
  now rewrite IH, build_request_admit.
Qed.

(** As long as line 139 does not see the quota exhausted, the
    submissions of a run are sent one by one, in order, each built from
    its own arguments, and all the instance sees is the decrements. *)
Lemma run_submits_admitted fuel evs : forall w,
  forallb is_submit evs = true ->
  (forall k, (k < length evs)%nat -> exhausted (decrements k (this w)) = false) ->
  exists w' l,
    run (S fuel) evs w = Some w'
    /\ this w' = decrements (length evs) (this w)
    /\ sent w' = (sent w ++ l)%list
    /\ Forall2 (builds (this w)) evs l
    /\ timers w' = timers w
    /\ pushed w' = pushed w
    /\ shifted w' = shifted w
    /\ next_handle w' = next_handle w.
Proof.
  induction evs as [| ev evs IH]; intros w A X.
  - exists w, []. simpl. rewrite app_nil_r. repeat split; auto.
  - simpl in A. apply andb_true_iff in A as [A1 A2].
    destruct ev as [now m e p o | |]; try discriminate.
    destruct (build_request_normal (this w) (Some m) e p o) as [rq B].
    pose proof (makeRequest_admitted fuel now (Some m) e p o w rq
                  (X O (Nat.lt_0_succ _)) B) as E.
    match type of E with _ = Some (_, ?w1) => set (w1' := w1) in * end.
    destruct (IH w1' A2) as (w' & l & R & T & Se & F & Ti & Pu & Sh & Nh).
    { intros k Hk. subst w1'. cbn [this].
      apply (X (S k)). simpl. lia. }
    exists w', (rq :: l).
    split; [cbn [run]; unfold step, after; rewrite E; exact R |].
    subst w1'. cbn [this sent timers pushed shifted] in *.
    split; [rewrite T; reflexivity |].
    split; [rewrite Se, <- app_assoc; reflexivity |].
    split; [| auto].
    constructor; [exact B |].
    eapply Forall2_impl; [| exact F].
    intros ev' rq'. destruct ev'; simpl; auto.
    now rewrite build_request_admit.
Qed.

Lemma decrements_limited k : forall t n,
  useDefaultLimits (options t) = true ->
  remaining (limit t) = JS.Num n ->
  useDefaultLimits (options (decrements k t)) = true
  /\ remaining (limit (decrements k t)) = JS.Num (n - Z.of_nat k)
  /\ reset (limit (decrements k t)) = reset (limit t)
  /\ requestQueue (decrements k t) = requestQueue t
  /\ requestLimitTimeout (decrements k t) = requestLimitTimeout t.
Proof.
  induction k as [| k IH]; intros t n U R.
  - simpl. rewrite R. repeat split; auto. f_equal. lia.
  - cbn [decrements].
    destruct (IH (decrement t) (n - 1)) as (U' & R' & Re & Q & T).
    + unfold decrement. now rewrite U.
    + unfold decrement. rewrite U. cbn. now rewrite R.
    + rewrite U', R', Re, Q, T. unfold decrement. rewrite U. cbn.
      repeat split; auto. f_equal. lia.
Qed.

Lemma decrements_unlimited k : forall t,
  useDefaultLimits (options t) = false -> decrements k t = t.
Proof.
  induction k as [| k IH]; intros t U; simpl; [reflexivity |].
  unfold decrement at 1. rewrite U. now apply IH.
Qed.

(** X1.  A client under limits with [n] requests left admits the next
    [n] submissions whatever their times and arguments: each is handed to
    the transport, in order, built from its own arguments; [remaining]
    goes down by their number; nothing is queued and no wake is
    scheduled. *)
Theorem submissions_within_quota (fuel : nat) (evs : list Event) (w : World)
    (n : Z) :
  useDefaultLimits (options (this w)) = true ->
  remaining (limit (this w)) = JS.Num n ->
  forallb is_submit evs = true ->
  Z.of_nat (length evs) <= n ->
  exists w' l,
    run (S fuel) evs w = Some w'
    /\ sent w' = (sent w ++ l)%list
    /\ Forall2 (builds (this w)) evs l
    /\ remaining (limit (this w')) = JS.Num (n - Z.of_nat (length evs))
    /\ reset (limit (this w')) = reset (limit (this w))
    /\ requestQueue (this w') = requestQueue (this w)
    /\ timers w' = timers w.
Proof.
  intros U R A L.
  destruct (run_submits_admitted fuel evs w A) as (w' & l & Ru & T & Se & F & Ti & _).
  - intros k Hk. destruct (decrements_limited k (this w) n U R) as (U' & R' & _).
    unfold exhausted. rewrite U', R'. cbn. apply Z.leb_gt. lia.
  - destruct (decrements_limited (length evs) (this w) n U R) as (_ & R' & Re & Q & _).
    exists w', l. rewrite T. repeat split; auto.
Qed.

(** A new client under limits has 40 requests: two submissions leave 38. *)
Lemma submissions_within_quota_witness :
  exists w' l,
    run 1 [ Submit 10 Get "movie/550" (PObject []) no_options;
            Submit 20 Get "movie/551" (PObject []) no_options ]
      (new_World (new_MovieDb 0 "key" limited)) = Some w'
    /\ sent w' = l
    /\ length l = 2%nat
    /\ remaining (limit (this w')) = JS.Num 38.
Proof.
  destruct (submissions_within_quota 0
              [ Submit 10 Get "movie/550" (PObject []) no_options;
                Submit 20 Get "movie/551" (PObject []) no_options ]
              (new_World (new_MovieDb 0 "key" limited)) 40)
    as (w' & l & R & Se & F & Re & _); try reflexivity; [cbn; lia |].
  exists w', l. repeat split; auto.
  apply Forall2_length in F. now rewrite <- F.
Defined.

(** X2.  Without [useDefaultLimits] the client is a pass-through: every
    submission of a run is handed to the transport, in order, and the
    instance (quota, queue, wake) is left exactly as it was. *)
Theorem submissions_unlimited (fuel : nat) (evs : list Event) (w : World) :
  useDefaultLimits (options (this w)) = false ->
  forallb is_submit evs = true ->
  exists w' l,
    run (S fuel) evs w = Some w'
    /\ sent w' = (sent w ++ l)%list
    /\ Forall2 (builds (this w)) evs l
    /\ this w' = this w
    /\ timers w' = timers w.
Proof.
  intros U A.
  destruct (run_submits_admitted fuel evs w A) as (w' & l & Ru & T & Se & F & Ti & _).
  - intros k Hk. rewrite decrements_unlimited by exact U.
    unfold exhausted. now rewrite U.
  - exists w', l. rewrite decrements_unlimited in T by exact U. auto 10.
Qed.

Lemma submissions_unlimited_witness :
  exists w' l,
    run 1 [ Submit 10 Get "movie/550" (PObject []) no_options;
            Submit 20 Get "movie/551" (PObject []) no_options ]
      (new_World (new_MovieDb 0 "key" unlimited)) = Some w'
    /\ sent w' = l
    /\ length l = 2%nat
    /\ this w' = new_MovieDb 0 "key" unlimited.
Proof.
  destruct (submissions_unlimited 0
              [ Submit 10 Get "movie/550" (PObject []) no_options;
                Submit 20 Get "movie/551" (PObject []) no_options ]
              (new_World (new_MovieDb 0 "key" unlimited)))
    as (w' & l & R & Se & F & T & _); try reflexivity.
  exists w', l. repeat split; auto.
  apply Forall2_length in F. now rewrite <- F.
Defined.

(** ** What the drainer and the rejection handler never do *)

Lemma unsent_refl w : unsent w w.
Proof. reflexivity. Qed.

Lemma unsent_trans w1 w2 w3 : unsent w1 w2 -> unsent w2 w3 -> unsent w1 w3.
Proof. unfold unsent. congruence. Qed.

(** An exception cuts the rest of the body off. *)
Lemma always_bind_throw {P : World -> World -> Prop} {A B} (e : Error)
    (k : A -> M B) :
  (forall w, P w w) -> always P (bind (throw e) k).
Proof. intros R w c w' H. inversion H; subst. apply R. Qed.

Ltac unsent_prim :=
  let w := fresh "w" in
  let H := fresh "H" in
  intros w ? ? H; unfold shift, clearTimeout in H;
  try (destruct (requestQueue (this w)));
  try (match type of H with context [match ?h with Some _ => _ | None => _ end] =>
         destruct h end);
  inversion H; subst; reflexivity.

Ltac unsent_step :=
  first
    [ apply (always_bind_throw _ _ unsent_refl)
    | apply (always_bind unsent_trans)
    | apply (always_ret unsent_refl)
    | apply (always_throw unsent_refl)
    | apply always_out_of_fuel
    | apply (always_get_this unsent_refl)
    | solve [unsent_prim] ].

Lemma unsent_checkQueue_window now : always unsent (checkQueue_window now).
Proof.
  unfold checkQueue_window.
  repeat (intros;
          match goal with
          | |- always _ (if ?b then _ else _) => destruct b
          | |- _ => unsent_step
          end).
Qed.

Lemma unsent_on_rejected now err : always unsent (on_rejected now err).
Proof.
  unfold on_rejected, header_field.
  repeat (intros;
          match goal with
          | |- always _ (if ?b then _ else _) => destruct b
          | |- always _ (bind (match ?x with _ => _ end) _) => destruct x
          | |- _ => unsent_step
          end).
Qed.

(** [makeRequest] without an endpoint, [checkQueue] and its loop, by
    induction on the fuel. *)
Lemma unsent_methods fuel :
  (forall now method params opts,
      always unsent (makeRequest fuel now method None params opts))
  /\ (forall now, always unsent (checkQueue fuel now))
  /\ (forall now i, always unsent (checkQueue_loop fuel now i)).
Proof.
  induction fuel as [| fuel (IHm & IHc & IHl)].
  - split; [| split]; intros; simpl; apply always_out_of_fuel.
  - split; [| split]; intros; simpl.
    + repeat (intros;
              match goal with
              | |- always _ (checkQueue _ _) => apply IHc
              | |- always _ (if ?b then _ else _) => destruct b
              | |- _ => unsent_step
              end).
    + repeat (intros;
              match goal with
              | |- always _ (checkQueue_loop _ _ _) => apply IHl
              | |- always _ (checkQueue_window _) => apply unsent_checkQueue_window
              | |- always _ (if ?b then _ else _) => destruct b
              | |- always _ (match ?x with _ => _ end) => destruct x
              | |- _ => unsent_step
              end).
    + repeat (intros;
              match goal with
              | |- always _ (checkQueue_loop _ _ _) => apply IHl
              | |- always _ (makeRequest _ _ _ _ _ _) => apply IHm
              | |- always _ (if ?b then _ else _) => destruct b
              | |- always _ (match ?x with _ => _ end) => destruct x
              | |- _ => unsent_step
              end).
Qed.

(** X4.  Only a submission hands a request to the transport.  A wake of
    the drainer and the failure of a request never do, whatever the state
    of the client: a request that was put on the queue is never sent, and
    a failed request is never sent again. *)
Theorem run_without_submission_sends_nothing (fuel : nat) (evs : list Event) :
  forall w w',
  forallb (fun ev => negb (is_submit ev)) evs = true ->
  run fuel evs w = Some w' ->
  sent w' = sent w.
Proof.
  induction evs as [| ev evs IH]; intros w w' A R; simpl in *.
  - now inversion R.
  - apply andb_true_iff in A as [A1 A2].
    destruct (step fuel ev w) as [w1 |] eqn:E; [| discriminate].
    rewrite (IH w1 w' A2 R).
    destruct ev as [| now h | now err]; [discriminate | |]; unfold step, after in E.
    + match type of E with
      | match ?m w with _ => _ end = _ =>
          assert (U : always unsent m); [| destruct (m w) as [[c w2] |] eqn:E2 ]
      end.
      * apply (always_bind unsent_trans); [unsent_prim |].
        intros [|]; [apply (proj1 (proj2 (unsent_methods fuel))) |
                     apply (always_ret unsent_refl)].
      * inversion E; subst. eapply U; eassumption.
      * discriminate.
    + destruct (on_rejected now err w) as [[c w2] |] eqn:E2; inversion E; subst.
      eapply unsent_on_rejected; eassumption.
Qed.

(** A request is queued, feedback restores quota, the drainer takes the
    request off the queue: nothing is sent. *)
Lemma run_without_submission_sends_nothing_witness :
  exists w w',
    makeRequest 2 1000 (Some Get) (Some "movie/550") (PObject []) no_options
      (client (JS.Num 0) (JS.Num 5000)) = Some (Normal VMakeRequest, w)
    /\ run 4 [ Fail 1200 (rejection 500 [("x-ratelimit-remaining", "5");
                                         ("x-ratelimit-reset", "9")]);
               Wake 1300 0 ] w = Some w'
    /\ length (requestQueue (this w)) = 1%nat
    /\ requestQueue (this w') = []
    /\ sent w' = [].
Proof.
  eexists.
  match goal with
  | |- exists w', ?m = Some (_, ?w1) /\ _ =>
      assert (E : m = Some (Normal VMakeRequest, w1)) by (lazy; reflexivity)
  end.
  match type of E with
  | _ = Some (_, ?w1) =>
      destruct (run_total 0
                  [ Fail 1200 (rejection 500 [("x-ratelimit-remaining", "5");
                                              ("x-ratelimit-reset", "9")]);
                    Wake 1300 0 ] w1) as (w' & R);
      pose proof (run_without_submission_sends_nothing 4
                    [ Fail 1200 (rejection 500 [("x-ratelimit-remaining", "5");
                                                ("x-ratelimit-reset", "9")]);
                      Wake 1300 0 ] w1 w' eq_refl R) as U
  end.
  exists w'. split; [exact E |]. split; [exact R |].
  split; [reflexivity |]. split; [| exact U].
  vm_compute in R. inversion R. reflexivity.
Defined.

(** ** The worlds an event can lead to *)

Lemma checkQueue_drained fuel now w :
  exists c w', checkQueue (S (S (S fuel))) now w = Some (c, w') /\ drained now w w'.
Proof.
  destruct (checkQueue_cases fuel now w) as [(Q & E) | [(Q & G & E) | (x & q & Q & G & E)]];
    do 2 eexists; (split; [exact E |]); unfold drained.
  - left. auto.
  - right. left. auto.
  - right. right. exists x, q. auto.
Qed.

Lemma step_stepped fuel ev w :
  exists w', step (S (S (S (S fuel)))) ev w = Some w' /\ stepped ev w w'.
Proof.
  destruct ev as [now m e p o | now h | now err]; unfold step, after, stepped.
  - destruct (exhausted (this w)) eqn:X.
    + rewrite makeRequest_exhausted by exact X.
      match goal with
      | |- context [checkQueue _ now ?w1] =>
          destruct (checkQueue_drained fuel now w1) as (c & w' & E & D)
      end.
      exists w'. rewrite E. split; [reflexivity |]. right. split; [reflexivity | exact D].
    + destruct (build_request_normal (this w) (Some m) e p o) as [rq B].
      rewrite (makeRequest_admitted _ now (Some m) e p o w rq X B).
      eexists. split; [reflexivity |]. left. split; [reflexivity |].
      exists rq. split; [exact B | reflexivity].
  - unfold bind, fire. fold (fired h w).
    destruct (existsb _ (timers w)).
    + destruct (checkQueue_drained (S fuel) now (fired h w)) as (c & w' & E & D).
      exists w'. rewrite E. auto.
    + cbn. eauto.
  - destruct (on_rejected_total now err w) as (c & w' & E).
    exists w'. rewrite E. eauto.
Qed.

(** The rejection handler writes [limit] and the list of rejections,
    and nothing else. *)
Lemma on_rejected_frame now err w c w' :
  on_rejected now err w = Some (c, w') ->
  timers w' = timers w
  /\ next_handle w' = next_handle w
  /\ sent w' = sent w
  /\ pushed w' = pushed w
  /\ shifted w' = shifted w
  /\ requestQueue (this w') = requestQueue (this w)
  /\ requestLimitTimeout (this w') = requestLimitTimeout (this w)
  /\ options (this w') = options (this w)
  /\ apiKey (this w') = apiKey (this w)
  /\ sessionId (this w') = sessionId (this w).
Proof.
  unfold on_rejected, header_field.
  destruct w as [t ts nh se dr pu sh]. unfold bind, get_this. cbn.
  destruct (useDefaultLimits (options t)); cbn.
  - destruct (match status _ with Some s => s =? 429 | None => false end); cbn.
    + destruct (negb (JS.truthy (reset (limit t))) || JS.lt (reset (limit t)) (JS.Num now))%bool;
        cbn; [destruct (header _); cbn |];
        intros H; inversion H; subst; cbn; auto 20.
    + destruct (header _); cbn; intros H; inversion H; subst; cbn; auto 20.
  - intros H; inversion H; subst; cbn; auto 20.
Qed.

(** ** Accounting *)

Lemma windowed_books now w :
  sent (windowed now w) = sent w /\ pushed (windowed now w) = pushed w.
Proof. unfold windowed. destruct (JS.gt _ _); auto. Qed.

Lemma drained_books now w w' :
  drained now w w' -> sent w' = sent w /\ pushed w' = pushed w.
Proof.
  intros [(Q & E) | [(Q & G & E) | (x & q & Q & G & E)]]; subst w'.
  - auto.
  - apply windowed_books.
  - apply (windowed_books now w).
Qed.

Lemma stepped_books ev w w' :
  stepped ev w w' ->
  (length (sent w') + length (pushed w')
   = length (sent w) + length (pushed w) + (if is_submit ev then 1 else 0))%nat.
Proof.
  destruct ev as [now m e p o | now h | now err]; cbn [stepped is_submit].
  - intros [(X & rq & B & E) | (X & D)].
    + subst w'. cbn. rewrite length_app. cbn. lia.
    + apply drained_books in D as [Se Pu]. rewrite Se, Pu. cbn.
      rewrite length_app. cbn. lia.
  - intros [E | D].
    + subst w'. cbn. lia.
    + apply drained_books in D as [Se Pu]. rewrite Se, Pu. cbn. lia.
  - intros [c E]. apply on_rejected_frame in E as (_ & _ & Se & Pu & _).
    rewrite Se, Pu. lia.
Qed.

(** X5.  Every submission is accounted for at once, in exactly one way:
    it is handed to the transport or put on the queue, never both, never
    neither; wakes and failures change neither count.  After any run,
    the requests sent and the requests ever queued have grown, together,
    by the number of submissions. *)
Theorem run_accounting (fuel : nat) (evs : list Event) : forall w : World,
  exists w',
    run (S (S (S (S fuel)))) evs w = Some w'
    /\ (length (sent w') + length (pushed w')
        = length (sent w) + length (pushed w) + submissions evs)%nat.
Proof.
  induction evs as [| ev evs IH]; intros w.
  - exists w. cbn. split; [reflexivity | lia].
  - destruct (step_stepped fuel ev w) as (w1 & E & St).
    destruct (IH w1) as (w' & R & C).
    exists w'. split; [cbn [run]; rewrite E; exact R |].
    apply stepped_books in St. rewrite C, St.
    unfold submissions. cbn [filter]. destruct (is_submit ev); cbn; lia.
Qed.

(** ** The quota counter stays between 0 and the ceiling *)

Lemma in_quota_decrement w w' :
  in_quota w ->
  JS.le (remaining (limit (this w))) (JS.Num 0) = false ->
  this w' = decrement (this w) ->
  in_quota w'.
Proof.
  intros (n & R & B) L T. unfold in_quota. rewrite T. unfold decrement.
  destruct (useDefaultLimits (options (this w))).
  - cbn. rewrite R in *. cbn in L. apply Z.leb_gt in L.
    exists (n - 1). split; [reflexivity | lia].
  - exists n. auto.
Qed.

Lemma in_quota_windowed now w : in_quota w -> in_quota (windowed now w).
Proof.
  intros I. unfold windowed. destruct (JS.gt _ _).
  - exact I.
  - exists 40. split; [reflexivity | lia].
Qed.

Lemma in_quota_drained now w w' : in_quota w -> drained now w w' -> in_quota w'.
Proof.
  intros I [(Q & E) | [(Q & G & E) | (x & q & Q & G & E)]]; subst w'.
  - exact I.
  - now apply in_quota_windowed.
  - apply (in_quota_decrement
             {| this := with_requestQueue q (this (windowed now w));
                timers := timers w; next_handle := next_handle w;
                sent := sent w; rejections := rejections w;
                pushed := pushed w; shifted := shifted w |}).
    + apply (in_quota_windowed now) in I. exact I.
    + cbn. destruct (remaining (limit (this (windowed now w)))) as [r |];
        cbn in *; [| discriminate].
      apply Z.ltb_lt in G. apply Z.leb_gt. lia.
    + reflexivity.
Qed.

Lemma in_quota_stepped ev w w' :
  is_fail ev = false -> in_quota w -> stepped ev w w' -> in_quota w'.
Proof.
  destruct ev as [now m e p o | now h | now err]; cbn [stepped is_fail];
    intros F I; [| | discriminate].
  - intros [(X & rq & B & E) | (X & D)].
    + subst w'. unfold exhausted in X.
      destruct (useDefaultLimits (options (this w))) eqn:U.
      * eapply in_quota_decrement; [exact I | exact X | reflexivity].
      * destruct I as (n & R & Bn). exists n. cbn. unfold decrement.
        rewrite U. auto.
    + eapply in_quota_drained; [| exact D]. exact I.
  - intros [E | D].
    + subst w'. exact I.
    + eapply in_quota_drained; [| exact D]. exact I.
Qed.

(** X6.  As long as no request fails, the quota counter stays a number
    between 0 and 40: submissions decrement it only while it is positive,
    and the drainer only restores it to 40 or decrements it while it is
    positive, in whatever order submissions and wakes come. *)
Theorem run_in_quota (fuel : nat) (evs : list Event) : forall w : World,
  in_quota w ->
  forallb (fun ev => negb (is_fail ev)) evs = true ->
  exists w', run (S (S (S (S fuel)))) evs w = Some w' /\ in_quota w'.
Proof.
  induction evs as [| ev evs IH]; intros w I A.
  - exists w. auto.
  - cbn in A. apply andb_true_iff in A as [A1 A2].
    destruct (step_stepped fuel ev w) as (w1 & E & St).
    destruct (IH w1) as (w' & R & I').
    + eapply in_quota_stepped; [| exact I | exact St].
      now destruct (is_fail ev).
    + exact A2.
    + exists w'. split; [cbn [run]; rewrite E; exact R | exact I'].
Qed.

(** Forty-one submissions on a new client and a wake after the window:
    the counter is still between 0 and 40. *)
Lemma run_in_quota_witness :
  exists w',
    run 4 (repeat (Submit 10 Get "movie/550" (PObject []) no_options) 41
             ++ [Wake 10500 0])
      (new_World (new_MovieDb 0 "key" limited)) = Some w'
    /\ in_quota w'.
Proof.
  apply (run_in_quota 0).
  - exists 40. split; [reflexivity | lia].
  - reflexivity.
Defined.

(** ** At most one wake is pending *)

Lemma one_wake_same w w' :
  timers w' = timers w ->
  requestLimitTimeout (this w') = requestLimitTimeout (this w) ->
  one_wake w -> one_wake w'.
Proof. unfold one_wake. intros T R. now rewrite T, R. Qed.

Lemma requestLimitTimeout_decrement t :
  requestLimitTimeout (decrement t) = requestLimitTimeout t.
Proof. unfold decrement. now destruct (useDefaultLimits (options t)). Qed.

Lemma one_wake_cleared w : one_wake w -> cleared w = [].
Proof.
  unfold one_wake, cleared.
  destruct (timers w) as [| t [| t' ts]]; intros O.
  - now destruct (requestLimitTimeout (this w)).
  - destruct O as (R & _). rewrite R. cbn. now rewrite Nat.eqb_refl.
  - destruct O.
Qed.

Lemma one_wake_windowed now w : one_wake w -> one_wake (windowed now w).
Proof.
  intros O. pose proof (one_wake_cleared w O) as C. unfold windowed.
  destruct (JS.gt (JS.sub (reset (limit (this w))) (JS.Num now)) (JS.Num 0)) eqn:D.
  - unfold one_wake, waiting. cbn. rewrite C. cbn. split; [reflexivity |].
    destruct (JS.sub (reset (limit (this w))) (JS.Num now)) as [d |];
      cbn in D; [| discriminate].
    exists d. split; [reflexivity | now apply Z.ltb_lt].
  - unfold one_wake, restored. cbn. now rewrite C.
Qed.

Lemma one_wake_drained now w w' : one_wake w -> drained now w w' -> one_wake w'.
Proof.
  intros O [(Q & E) | [(Q & G & E) | (x & q & Q & G & E)]]; subst w'.
  - exact O.
  - now apply one_wake_windowed.
  - apply (one_wake_same (windowed now w)); cbn.
    + reflexivity.
    + now rewrite requestLimitTimeout_decrement.
    + now apply one_wake_windowed.
Qed.

Lemma one_wake_fired h w : one_wake w -> one_wake (fired h w).
Proof.
  unfold one_wake, fired. cbn.
  destruct (timers w) as [| t [| t' ts]]; intros O; cbn; auto.
  - destruct (Nat.eqb (handle t) h); cbn; auto.
  - destruct O.
Qed.

Lemma one_wake_stepped ev w w' : one_wake w -> stepped ev w w' -> one_wake w'.
Proof.
  destruct ev as [now m e p o | now h | now err]; cbn [stepped]; intros O.
  - intros [(X & rq & B & E) | (X & D)].
    + subst w'. apply (one_wake_same w); cbn; auto.
      apply requestLimitTimeout_decrement.
    + eapply one_wake_drained; [| exact D].
      apply (one_wake_same w); cbn; auto.
  - intros [E | D].
    + subst w'. now apply one_wake_fired.
    + eapply one_wake_drained; [| exact D]. now apply one_wake_fired.
  - intros [c E]. apply on_rejected_frame in E as (T & _ & _ & _ & _ & _ & R & _).
    now apply (one_wake_same w).
Qed.

(** X7.  The client never has more than one wake of the drainer pending.
    If at most one timer is pending, it is the one [requestLimitTimeout]
    names and its delay is positive, then the same holds after any run of
    submissions, wakes and failures: each new wake replaces the previous
    one, and the wake without delay of line 103 is never scheduled. *)
Theorem run_one_wake (fuel : nat) (evs : list Event) : forall w : World,
  one_wake w ->
  exists w', run (S (S (S (S fuel)))) evs w = Some w' /\ one_wake w'.
Proof.
  induction evs as [| ev evs IH]; intros w O.
  - exists w. auto.
  - destruct (step_stepped fuel ev w) as (w1 & E & St).
    destruct (IH w1) as (w' & R & O').
    + eapply one_wake_stepped; [exact O | exact St].
    + exists w'. split; [cbn [run]; rewrite E; exact R | exact O'].
Qed.

(** Three submissions on an exhausted client: one wake is pending, not
    three. *)
Lemma run_one_wake_witness :
  exists w',
    run 4 (repeat (Submit 10 Get "movie/550" (PObject []) no_options) 3)
      (client (JS.Num 0) (JS.Num 5000)) = Some w'
    /\ length (timers w') = 1%nat
    /\ length (requestQueue (this w')) = 3%nat.
Proof.
  destruct (run_one_wake 0
              (repeat (Submit 10 Get "movie/550" (PObject []) no_options) 3)
              (client (JS.Num 0) (JS.Num 5000)) I) as (w' & R & O).
  exists w'. split; [exact R |].
  vm_compute in R. inversion R. split; reflexivity.
Defined.

(** ** The drainer after the window *)

Lemma checkQueue_elapsed fuel now w x q :
  useDefaultLimits (options (this w)) = true ->
  requestQueue (this w) = x :: q ->
  JS.gt (reset (limit (this w))) (JS.Num now) = false ->
  exists w',
    checkQueue (S (S (S fuel))) now w = Some (Throw includes_of_undefined, w')
    /\ requestQueue (this w') = q
    /\ shifted w' = (shifted w ++ [x])%list
    /\ remaining (limit (this w')) = JS.Num 39
    /\ reset (limit (this w')) = reset (limit (this w))
    /\ sent w' = sent w
    /\ timers w' = cleared w.
Proof.
  intros U Q D. rewrite <- gt_sub_now in D.
  exists (taken x q (restored w)). split.
  - apply checkQueue_takes; [now apply checkQueue_window_elapsed | exact Q | reflexivity].
  - cbn. unfold decrement. cbn. rewrite U. cbn. repeat split; reflexivity.
Qed.

(** X8.  Under limits, a run of the drainer on a non-empty queue once
    the window has elapsed ([reset] is not after [now]) never returns: it
    cancels the pending wake, restores the quota, takes the head of the
    queue off, decrements the quota to 39 and throws a [TypeError] from
    [makeRequest()].  The request taken off is nowhere afterwards:
    nothing is handed to the transport, the rest of the queue stays, and
    no further wake is scheduled. *)
Theorem checkQueue_elapsed_throws (fuel : nat) (now : Z) (w : World)
    (x : PendingRequest) (q : list PendingRequest) :
  useDefaultLimits (options (this w)) = true ->
  requestQueue (this w) = x :: q ->
  JS.gt (reset (limit (this w))) (JS.Num now) = false ->
  exists w',
    checkQueue (S (S (S fuel))) now w = Some (Throw includes_of_undefined, w')
    /\ requestQueue (this w') = q
    /\ shifted w' = (shifted w ++ [x])%list
    /\ remaining (limit (this w')) = JS.Num 39
    /\ reset (limit (this w')) = reset (limit (this w))
    /\ sent w' = sent w
    /\ timers w' = cleared w.
Proof.
  intros U Q D. rewrite <- gt_sub_now in D.
  exists (taken x q (restored w)). split.
  - apply checkQueue_takes; [now apply checkQueue_window_elapsed | exact Q | reflexivity].
  - cbn. unfold decrement. cbn. rewrite U. cbn. repeat split; reflexivity.
Qed.

Lemma checkQueue_elapsed_throws_witness :
  exists w1 w',
    makeRequest 2 1000 (Some Get) (Some "movie/550") (PObject []) no_options
      (client (JS.Num 0) (JS.Num 5000)) = Some (Normal VMakeRequest, w1)
    /\ checkQueue 3 5000 w1 = Some (Throw includes_of_undefined, w')
    /\ requestQueue (this w') = []
    /\ sent w' = []
    /\ timers w' = [].
Proof.
  eexists.
  match goal with
  | |- exists w', ?m = Some (_, ?w1) /\ _ =>
      assert (E : m = Some (Normal VMakeRequest, w1)) by (lazy; reflexivity)
  end.
  match type of E with
  | _ = Some (_, ?w1) =>
      destruct (checkQueue_elapsed_throws 0 5000 w1
                  {| pr_method := Some Get; pr_endpoint := Some "movie/550";
                     pr_params := PObject []; pr_options := no_options |} [])
        as (w' & C & Q & _ & _ & _ & Se & Ti); try reflexivity
  end.
  exists w'. rewrite Q, Se, Ti. repeat split; auto.
Defined.

(** X9.  Under limits, a submission that finds the quota exhausted once
    the window has elapsed throws synchronously instead of returning a
    promise: its request is put on the queue, the drainer restores the
    quota, takes the head of the queue off (the submitted request itself
    when the queue was empty) and throws; nothing is handed to the
    transport. *)
Theorem makeRequest_exhausted_elapsed_throws (fuel : nat) (now : Z)
    (m : HttpMethod) (e : string) (p : Params) (o : RequestOptions)
    (w : World) :
  exhausted (this w) = true ->
  JS.gt (reset (limit (this w))) (JS.Num now) = false ->
  exists x q w',
    (requestQueue (this w) ++
       [{| pr_method := Some m; pr_endpoint := Some e;
           pr_params := p; pr_options := o |}])%list = x :: q
    /\ makeRequest (S (S (S (S fuel)))) now (Some m) (Some e) p o w
       = Some (Throw includes_of_undefined, w')
    /\ requestQueue (this w') = q
    /\ shifted w' = (shifted w ++ [x])%list
    /\ remaining (limit (this w')) = JS.Num 39
    /\ sent w' = sent w.
Proof.
  intros X D.
  assert (U : useDefaultLimits (options (this w)) = true).
  { unfold exhausted in X. now apply andb_true_iff in X as [U _]. }
  rewrite makeRequest_exhausted by exact X.
  destruct (requestQueue (this w) ++
              [{| pr_method := Some m; pr_endpoint := Some e;
                  pr_params := p; pr_options := o |}])%list as [| x q] eqn:Q.
  { destruct (requestQueue (this w)); discriminate. }
  match goal with
  | |- context [checkQueue _ now ?w1] =>
      destruct (checkQueue_elapsed fuel now w1 x q)
        as (w' & C & Q' & Sh & Re & _ & Se & _); [exact U | reflexivity | exact D |]
  end.
  exists x, q, w'. repeat split; auto.
Qed.

Lemma makeRequest_exhausted_elapsed_throws_witness :
  exists w',
    makeRequest 4 6000 (Some Get) (Some "movie/550") (PObject []) no_options
      (client (JS.Num 0) (JS.Num 5000))
    = Some (Throw includes_of_undefined, w')
    /\ requestQueue (this w') = []
    /\ sent w' = [].
Proof.
  destruct (makeRequest_exhausted_elapsed_throws 0 6000 Get "movie/550"
              (PObject []) no_options (client (JS.Num 0) (JS.Num 5000)))
    as (x & q & w' & Q & E & Q' & _ & _ & Se); try reflexivity.
  exists w'. inversion Q; subst. auto.
Defined.

(** ** A 429 *)

(** X10.  Under limits, the failure of a request with status 429 never
    puts the request back on the queue and never schedules a wake: the
    handler always ends in an exception (the [ReferenceError] of line
    193, or the [TypeError] of line 189 when the response has no header
    table), so the caller's promise is rejected with that exception; the
    queue, the quota counter, the timers and the requests sent are as
    they were. *)
Theorem settle_429_rejects {R : Type} (now : Z) (err : AxiosError) (w : World) :
  rate_limited (this w) err = true ->
  exists (e : Error) w',
    settle (R := R) now (inr err) w = Some (Rejected (Thrown e), w')
    /\ requestQueue (this w') = requestQueue (this w)
    /\ pushed w' = pushed w
    /\ remaining (limit (this w')) = remaining (limit (this w))
    /\ timers w' = timers w
    /\ sent w' = sent w.
Proof.
  unfold rate_limited, settle, on_rejected, header_field. intros RL.
  destruct w as [t ts nh se dr pu sh]. unfold bind, get_this. cbn in *.
  destruct (response err) as [res |]; cbn in *;
    [| rewrite andb_false_r in RL; discriminate].
  rewrite RL.
  destruct (negb (JS.truthy (reset (limit t))) || JS.lt (reset (limit t)) (JS.Num now))%bool;
    cbn; [destruct (header res); cbn |]; do 2 eexists; repeat split; reflexivity.
Qed.

Lemma settle_429_rejects_witness :
  exists e w',
    settle (R := unit) 1000 (inr (rejection 429 [("retry-after", "2")]))
      (client (JS.Num 0) (JS.Num 500)) = Some (Rejected (Thrown e), w')
    /\ requestQueue (this w') = []
    /\ timers w' = [].
Proof.
  destruct (settle_429_rejects (R := unit) 1000
              (rejection 429 [("retry-after", "2")])
              (client (JS.Num 0) (JS.Num 500)) eq_refl)
    as (e & w' & E & Q & _ & _ & T & _).
  exists e, w'. auto.
Defined.

(** ** Strings *)

Lemma append_nil_r (s : string) : s ++ EmptyString = s.
Proof. induction s as [| c s IH]; simpl; [reflexivity | now rewrite IH]. Qed.

Lemma append_assoc (a b c : string) : (a ++ b) ++ c = a ++ (b ++ c).
Proof. induction a as [| x a IH]; simpl; [reflexivity | now rewrite IH]. Qed.

Lemma prefix_append (p s : string) : String.prefix p (p ++ s) = true.
Proof.
  induction p as [| c p IH]; simpl.
  - now destruct s.
  - destruct (ascii_dec c c); [exact IH | congruence].
Qed.

Lemma drop_append (p s : string) : JS.drop (String.length p) (p ++ s) = s.
Proof. induction p as [| c p IH]; simpl; [now destruct s | exact IH]. Qed.

(** A pattern that starts with a colon is no prefix of a string that
    starts with something else. *)
Lemma prefix_colon_other (k : string) (c : ascii) (r : string) :
  JS.is_colon c = false -> String.prefix (String ":" k) (String c r) = false.
Proof.
  intros C.
  change (String.prefix (String ":" k) (String c r))
    with (match ascii_dec ":" c with
          | left _ => String.prefix k r
          | right _ => false
          end).
  destruct (ascii_dec ":" c) as [E | N]; [| reflexivity].
  subst c. discriminate.
Qed.

(** A replacement without a dollar is inserted as it stands. *)
Lemma substitution_cons (m b a : string) (c : ascii) (r : string) :
  Ascii.eqb c "$" = false ->
  JS.substitution m b a (String c r) = String c (JS.substitution m b a r).
Proof.
  intros N.
  destruct c as [[] [] [] [] [] [] [] []]; try reflexivity; discriminate.
Qed.

Lemma substitution_dollar_free (m b a repl : string) :
  dollar_free repl = true -> JS.substitution m b a repl = repl.
Proof.
  induction repl as [| c r IH]; intros D; [reflexivity |].
  simpl in D. apply andb_true_iff in D as [D1 D2].
  rewrite substitution_cons by (now apply negb_true_iff).
  now rewrite IH.
Qed.

(** [replace] on a text in which the pattern does not occur. *)
Lemma replace_from_absent (pat repl : string) : forall s before,
  JS.includes s pat = false -> JS.replace_from pat repl before s = s.
Proof.
  induction s as [| c r IH]; intros before I.
  - cbn [JS.includes JS.replace_from] in *.
    destruct (String.prefix pat EmptyString); [discriminate | reflexivity].
  - cbn [JS.includes JS.replace_from] in *.
    destruct (String.prefix pat (String c r)); [discriminate |].
    now rewrite IH.
Qed.

(** [replace] where the pattern starts the text. *)
Lemma replace_from_here (pat repl before s : string) :
  String.prefix pat s = true ->
  JS.replace_from pat repl before s
  = JS.substitution pat before (JS.drop (String.length pat) s) repl
      ++ JS.drop (String.length pat) s.
Proof.
  intros P. destruct s as [| c r]; cbn [JS.replace_from]; now rewrite P.
Qed.

(** [replace] of a placeholder whose colon is the first colon. *)
Lemma replace_from_first (k repl post : string) : forall pre before,
  colon_free pre = true ->
  JS.replace_from (String ":" k) repl before (pre ++ (String ":" k ++ post))
  = pre ++ JS.substitution (String ":" k) (before ++ pre) post repl ++ post.
Proof.
  induction pre as [| c pre IH]; intros before C.
  - rewrite append_nil_r.
    change (EmptyString ++ (String ":" k ++ post)) with (String ":" k ++ post).
    rewrite replace_from_here by apply prefix_append.
    rewrite drop_append. reflexivity.
  - simpl in C. apply andb_true_iff in C as [C1 C2]. apply negb_true_iff in C1.
    change (String c pre ++ (String ":" k ++ post))
      with (String c (pre ++ (String ":" k ++ post))).
    cbn [JS.replace_from].
    rewrite prefix_colon_other by exact C1.
    rewrite IH by exact C2. now rewrite append_assoc.
Qed.

Lemma letter_not_colon (c : ascii) : JS.is_letter c = true -> JS.is_colon c = false.
Proof.
  intros L. unfold JS.is_colon. destruct (Ascii.eqb_spec c ":") as [E | N];
    [subst c; discriminate | reflexivity].
Qed.

Lemma all_letters_colon_free (s : string) : all_letters s = true -> colon_free s = true.
Proof.
  induction s as [| c s IH]; simpl; [reflexivity |].
  intros A. apply andb_true_iff in A as [A1 A2].
  now rewrite (letter_not_colon c A1), IH.
Qed.

Lemma count_colons_append (a b : string) :
  JS.count_colons (a ++ b) = (JS.count_colons a + JS.count_colons b)%nat.
Proof.
  induction a as [| c a IH]; simpl; [reflexivity |].
  destruct (JS.is_colon c); simpl; now rewrite IH.
Qed.

Lemma count_colons_colon_free (s : string) :
  colon_free s = true -> JS.count_colons s = O.
Proof.
  induction s as [| c s IH]; simpl; [reflexivity |].
  intros C. apply andb_true_iff in C as [C1 C2]. apply negb_true_iff in C1.
  rewrite C1. now apply IH.
Qed.

Lemma span_letters_append (name post : string) :
  all_letters name = true ->
  starts_with_letter post = false ->
  JS.span_letters (name ++ post) = (name, post).
Proof.
  intros A P. induction name as [| c name IH]; simpl in *.
  - destruct post as [| c r]; [reflexivity |]. simpl in *. now rewrite P.
  - apply andb_true_iff in A as [A1 A2]. rewrite A1, (IH A2). reflexivity.
Qed.

Section Placeholders.
Variable repl : string.

Lemma replace_placeholders_colon_free : forall s before,
  colon_free s = true ->
  JS.replace_placeholders_from repl before false s = s.
Proof.
  induction s as [| c s IH]; intros before C; [reflexivity |].
  simpl in C. apply andb_true_iff in C as [C1 C2]. apply negb_true_iff in C1.
  cbn [JS.replace_placeholders_from andb]. rewrite C1. now rewrite IH.
Qed.

Lemma replace_placeholders_before (rest : string) : forall pre before,
  colon_free pre = true ->
  JS.replace_placeholders_from repl before false (pre ++ rest)
  = pre ++ JS.replace_placeholders_from repl (before ++ pre) false rest.
Proof.
  induction pre as [| c pre IH]; intros before C.
  - now rewrite append_nil_r.
  - simpl in C. apply andb_true_iff in C as [C1 C2]. apply negb_true_iff in C1.
    change (String c pre ++ rest) with (String c (pre ++ rest)).
    cbn [JS.replace_placeholders_from andb]. rewrite C1.
    rewrite IH by exact C2. now rewrite append_assoc.
Qed.

Lemma replace_placeholders_letters (rest : string) : forall name before,
  all_letters name = true ->
  JS.replace_placeholders_from repl before true (name ++ rest)
  = JS.replace_placeholders_from repl (before ++ name) true rest.
Proof.
  induction name as [| c name IH]; intros before A.
  - now rewrite append_nil_r.
  - simpl in A. apply andb_true_iff in A as [A1 A2].
    change (String c name ++ rest) with (String c (name ++ rest)).
    cbn [JS.replace_placeholders_from andb]. rewrite A1.
    rewrite IH by exact A2. now rewrite append_assoc.
Qed.

Lemma replace_placeholders_after (post before : string) :
  starts_with_letter post = false ->
  colon_free post = true ->
  JS.replace_placeholders_from repl before true post = post.
Proof.
  intros S C. destruct post as [| c r]; [reflexivity |].
  simpl in S, C. apply andb_true_iff in C as [C1 C2]. apply negb_true_iff in C1.
  cbn [JS.replace_placeholders_from andb]. rewrite S, C1.
  now rewrite replace_placeholders_colon_free.
Qed.

(** [replace(/:[a-z]*/gi, repl)] on a text with one placeholder. *)
Lemma replace_placeholders_single (pre name post : string) :
  colon_free pre = true ->
  all_letters name = true ->
  starts_with_letter post = false ->
  colon_free post = true ->
  JS.replace_placeholders (pre ++ (String ":" name ++ post)) repl
  = pre ++ JS.substitution (String ":" name) pre post repl ++ post.
Proof.
  intros Cp A S Cq. unfold JS.replace_placeholders.
  rewrite replace_placeholders_before by exact Cp.
  change (String ":" name ++ post) with (String ":" (name ++ post)).
  cbn [JS.replace_placeholders_from andb].
  change (JS.is_colon ":") with true. cbn iota.
  rewrite span_letters_append by assumption.
  rewrite replace_placeholders_letters by exact A.
  rewrite replace_placeholders_after by assumption.
  reflexivity.
Qed.

End Placeholders.

(** ** Resolving an endpoint *)

(** X12.  A string bag on a template with exactly one placeholder
    ([: ] followed by letters) is used twice: it takes the place of the
    placeholder, and it is also appended as a query string, after a
    question mark unless it starts with one.  (The string is taken
    without a dollar, which [replace] would interpret.) *)
Theorem prepareEndpoint_scalar_single (pre name post s : string) :
  colon_free pre = true ->
  all_letters name = true ->
  starts_with_letter post = false ->
  colon_free post = true ->
  dollar_free s = true ->
  prepareEndpoint (pre ++ (String ":" name ++ post)) (PString s)
  = Normal ((pre ++ s ++ post)
              ++ (if JS.startsWith s "?" then EmptyString else "?") ++ s).
Proof.
  intros Cp A S Cq D. unfold prepareEndpoint.
  assert (N : JS.count_colons (pre ++ (String ":" name ++ post)) = 1%nat).
  { rewrite count_colons_append, (count_colons_colon_free pre Cp).
    change (String ":" name ++ post) with (String ":" (name ++ post)).
    cbn [JS.count_colons]. change (JS.is_colon ":") with true. cbn iota.
    rewrite count_colons_append, (count_colons_colon_free post Cq),
      (count_colons_colon_free name (all_letters_colon_free name A)).
    reflexivity. }
  rewrite N. cbn [Nat.eqb].
  rewrite replace_placeholders_single by assumption.
  now rewrite substitution_dollar_free.
Qed.

Lemma prepareEndpoint_scalar_single_witness :
  prepareEndpoint "movie/:id/images" (PString "550")
  = Normal "movie/550/images?550".
Proof.
  apply (prepareEndpoint_scalar_single "movie/" "id" "/images" "550");
    reflexivity.
Defined.

Lemma fold_replace_absent (o : dict) (e : string) : forall keys,
  forallb (fun k => negb (JS.includes e (String ":" k))) keys = true ->
  fold_left
    (fun compiled key =>
       match dict_get o key with
       | Some v => JS.replace compiled (String ":" key) v
       | None => compiled
       end) keys e = e.
Proof.
  induction keys as [| k keys IH]; intros A; [reflexivity |].
  simpl in A. apply andb_true_iff in A as [A1 A2]. apply negb_true_iff in A1.
  cbn [fold_left].
  replace (match dict_get o k with
           | Some v => JS.replace e (String ":" k) v
           | None => e
           end) with e.
  - now apply IH.
  - destruct (dict_get o k); [| reflexivity].
    unfold JS.replace. now rewrite replace_from_absent.
Qed.

(** X13.  A mapping bag none of whose keys has its placeholder [:key] in
    the template leaves the template as it is, whatever the values: keys
    without a placeholder are not an error and change nothing in the
    path. *)
Theorem prepareEndpoint_no_placeholder (endpoint : string) (o : dict) :
  forallb (fun k => negb (JS.includes endpoint (String ":" k))) (dict_keys o) = true ->
  prepareEndpoint endpoint (PObject o) = Normal endpoint.
Proof.
  intros A. unfold prepareEndpoint.
  destruct (negb (isEmpty (PObject o))); [| reflexivity].
  now rewrite fold_replace_absent.
Qed.

Lemma prepareEndpoint_no_placeholder_witness :
  prepareEndpoint "search/movie" (PObject [("query", "alien"); ("page", "2")])
  = Normal "search/movie".
Proof.
  apply (prepareEndpoint_no_placeholder "search/movie"
           [("query", "alien"); ("page", "2")]).
  reflexivity.
Defined.

Lemma includes_placeholder (k post : string) : forall pre,
  JS.includes (pre ++ (String ":" k ++ post)) (String ":" k) = true.
Proof.
  induction pre as [| c pre IH].
  - change (EmptyString ++ (String ":" k ++ post)) with (String ":" k ++ post).
    destruct (String ":" k ++ post) eqn:E; cbn [JS.includes];
      rewrite <- E, prefix_append; reflexivity.
  - change (String c pre ++ (String ":" k ++ post))
      with (String c (pre ++ (String ":" k ++ post))).
    cbn [JS.includes].
    destruct (String.prefix (String ":" k) _); [reflexivity | exact IH].
Qed.

Lemma dict_get_app_absent (o1 o2 : dict) (k : string) :
  existsb (String.eqb k) (dict_keys o1) = false ->
  dict_get (o1 ++ o2)%list k = dict_get o2 k.
Proof.
  induction o1 as [| [k' v'] o1 IH]; intros A; [reflexivity |].
  simpl in *. apply orb_false_iff in A as [A1 A2].
  rewrite String.eqb_sym, A1. now apply IH.
Qed.

Lemma prepareEndpoint_replaces (pre k post v : string) :
  colon_free pre = true ->
  dollar_free v = true ->
  prepareEndpoint (pre ++ (String ":" k ++ post)) (PObject [(k, v)])
  = Normal (pre ++ v ++ post).
Proof.
  intros C D. unfold prepareEndpoint. cbn [isEmpty negb dict_keys map fst fold_left].
  cbn [dict_get]. rewrite String.eqb_refl. unfold JS.replace.
  rewrite replace_from_first by exact C.
  now rewrite substitution_dollar_free.
Qed.

(** X14.  A mapping bag puts the value of a key in the place of the
    first [:key] of the template: with the keys before it having no
    placeholder in the template and the keys after it none in the result,
    the path is the template with the value instead of [:key], whatever
    follows the key in the template.  (The text before the placeholder
    has no colon, the value no dollar.) *)
Theorem prepareEndpoint_mapping (pre k post v : string) (o1 o2 : dict) :
  colon_free pre = true ->
  dollar_free v = true ->
  forallb (fun k' => negb (JS.includes (pre ++ (String ":" k ++ post)) (String ":" k')))
    (dict_keys o1) = true ->
  forallb (fun k' => negb (JS.includes (pre ++ v ++ post) (String ":" k')))
    (dict_keys o2) = true ->
  prepareEndpoint (pre ++ (String ":" k ++ post))
    (PObject (o1 ++ (k, v) :: o2)%list)
  = Normal (pre ++ v ++ post).
Proof.
  intros C D A1 A2. unfold prepareEndpoint.
  assert (NE : negb (isEmpty (PObject (o1 ++ (k, v) :: o2)%list)) = true).
  { destruct o1; reflexivity. }
  rewrite NE. f_equal.
  unfold dict_keys. rewrite map_app, fold_left_app. fold (dict_keys o1).
  rewrite (fold_replace_absent _ _ (dict_keys o1) A1).
  cbn [map fold_left fst].
  assert (G : dict_get (o1 ++ (k, v) :: o2)%list k = Some v).
  { rewrite dict_get_app_absent.
    - simpl. now rewrite String.eqb_refl.
    - destruct (existsb (String.eqb k) (dict_keys o1)) eqn:X; [| reflexivity].
      apply existsb_exists in X as (k' & I & E). apply String.eqb_eq in E. subst k'.
      rewrite forallb_forall in A1. specialize (A1 k I).
      now rewrite includes_placeholder in A1. }
  rewrite G. unfold JS.replace.
  rewrite replace_from_first by exact C.
  rewrite substitution_dollar_free by exact D.
  fold (dict_keys o2). now apply fold_replace_absent.
Qed.

(** The key [list] also matches the beginning of [:list_id]. *)
Lemma prepareEndpoint_mapping_witness :
  prepareEndpoint "list/:list_id/items" (PObject [("page", "2"); ("list", "7")])
  = Normal "list/7_id/items".
Proof.
  apply (prepareEndpoint_mapping "list/" "list" "_id/items" "7" [("page", "2")] []);
    reflexivity.
Defined.

(** ** Dictionaries *)

Lemma dict_get_set_same (o : dict) (k v : string) :
  dict_get (dict_set o k v) k = Some v.
Proof.
  induction o as [| [k' v'] o IH]; simpl.
  - now rewrite String.eqb_refl.
  - destruct (String.eqb k' k) eqn:E; simpl; rewrite E; [reflexivity | exact IH].
Qed.

Lemma dict_get_set_other (o : dict) (k k' v : string) :
  String.eqb k' k = false ->
  dict_get (dict_set o k' v) k = dict_get o k.
Proof.
  intros N. induction o as [| [k0 v0] o IH]; simpl.
  - now rewrite N.
  - destruct (String.eqb k0 k') eqn:E; simpl.
    + apply String.eqb_eq in E. subst k0. now rewrite N.
    + now rewrite IH.
Qed.

Lemma dict_get_absent (o : dict) (k : string) :
  ~ In k (dict_keys o) -> dict_get o k = None.
Proof.
  induction o as [| [k' v'] o IH]; simpl; intros N; [reflexivity |].
  destruct (String.eqb_spec k' k) as [E | _]; [tauto |].
  apply IH. tauto.
Qed.

(** [merge]: the source wins, the object keeps the rest. *)
Lemma merge_get (k : string) : forall (b a : dict),
  NoDup (dict_keys b) ->
  dict_get (merge a b) k
  = match dict_get b k with
    | Some v => Some v
    | None => dict_get a k
    end.
Proof.
  unfold merge.
  induction b as [| [k' v'] b IH]; intros a N; [reflexivity |].
  simpl in *. inversion N as [| ? ? NI N']; subst.
  rewrite IH by exact N'.
  destruct (String.eqb_spec k' k) as [E | NE].
  - subst k'. rewrite (dict_get_absent b k NI). apply dict_get_set_same.
  - destruct (dict_get b k); [reflexivity |].
    apply dict_get_set_other. now apply String.eqb_neq.
Qed.

(** [omit]: the paths go, the rest stays. *)
Lemma omit_get (paths : list string) (k : string) : forall o : dict,
  dict_get (omit o paths) k = if mem k paths then None else dict_get o k.
Proof.
  unfold omit.
  induction o as [| [k' v'] o IH]; cbn [filter dict_get fst];
    [now destruct (mem k paths) |].
  destruct (String.eqb_spec k' k) as [E | NE].
  - subst k'. destruct (mem k paths) eqn:Mk; cbn [negb dict_get].
    + exact IH.
    + now rewrite String.eqb_refl.
  - destruct (mem k' paths); cbn [negb dict_get]; [exact IH |].
    destruct (String.eqb_spec k' k); [contradiction | exact IH].
Qed.

Lemma omit_keys_NoDup (paths : list string) : forall o : dict,
  NoDup (dict_keys o) -> NoDup (dict_keys (omit o paths)).
Proof.
  unfold omit, dict_keys.
  induction o as [| [k v] o IH]; cbn [filter map fst]; intros N; [constructor |].
  inversion N as [| ? ? NI N']; subst.
  destruct (mem k paths); cbn [negb map fst]; [now apply IH |].
  constructor; [| now apply IH].
  intros I. apply NI. apply in_map_iff in I as ([k' v'] & E & F).
  apply filter_In in F as [F _]. apply in_map_iff. now exists (k', v').
Qed.

(** The keys line 163 collects have one character each. *)
Lemma match_colon_letter_one (s : string) :
  Forall (fun m => String.length (JS.substr1 m) = 1%nat) (JS.match_colon_letter s)
  /\ forall c, Forall (fun m => String.length (JS.substr1 m) = 1%nat)
                 (JS.match_colon_letter (String c s)).
Proof.
  induction s as [| d r [IH1 IH2]].
  - split; [constructor |]. intros c. simpl. destruct (JS.is_colon c); constructor.
  - split; [apply IH2 |]. intros c.
    cbn [JS.match_colon_letter].
    destruct (JS.is_colon c); [| apply IH2].
    destruct (JS.is_letter d); [| apply IH2].
    constructor; [reflexivity | exact IH1].
Qed.

Lemma omittedProps_longer (e k : string) :
  String.length k <> 1%nat ->
  mem k (map JS.substr1 (JS.match_colon_letter e)) = false.
Proof.
  intros L. unfold mem.
  destruct (existsb _ _) eqn:X; [| reflexivity].
  apply existsb_exists in X as (k' & I & E). apply String.eqb_eq in E. subst k'.
  apply in_map_iff in I as (m & E & I).
  destruct (match_colon_letter_one e) as [F _].
  rewrite Forall_forall in F. specialize (F m I). congruence.
Qed.

(** The query of a request built from a non-empty mapping bag. *)
Lemma build_request_query t m e o opts k :
  o <> [] ->
  NoDup (dict_keys o) ->
  String.length k <> 1%nat ->
  exists rq,
    build_request t m e (PObject o) opts = Normal rq
    /\ rq_data rq = rq_params rq
    /\ dict_get (rq_params rq) k
       = match dict_get o k with
         | Some v => Some v
         | None => dict_get (credentials t opts) k
         end.
Proof.
  intros NE N L. unfold build_request.
  assert (E : isEmpty (PObject o) = false) by (destruct o; [contradiction | reflexivity]).
  rewrite E, andb_false_r. cbn [andb isString prepareEndpoint].
  eexists. split; [reflexivity |]. split; [reflexivity |].
  cbn [rq_params]. rewrite merge_get by (now apply omit_keys_NoDup).
  now rewrite omit_get, omittedProps_longer.
Qed.

Lemma query_get (cred bag : dict) (e k : string) :
  NoDup (dict_keys bag) ->
  String.length k <> 1%nat ->
  dict_get (merge cred (omit bag (map JS.substr1 (JS.match_colon_letter e)))) k
  = match dict_get bag k with
    | Some v => Some v
    | None => dict_get cred k
    end.
Proof.
  intros N L. rewrite merge_get by (now apply omit_keys_NoDup).
  now rewrite omit_get, omittedProps_longer.
Qed.

Lemma credentials_api_key t opts :
  dict_get (credentials t opts) "api_key" = Some (apiKey t).
Proof. reflexivity. Qed.

Lemma account_id_keys : NoDup (dict_keys [("id", "{account_id}")]).
Proof. constructor; [intros [] | constructor]. Qed.

(** ** The query of a request *)

(** X15.  Every key of a mapping bag that is longer than one character
    is sent in the query and in the body with its value, whether or not
    the template has a placeholder for it: no placeholder name of two or
    more letters is ever removed from the query. *)
Theorem build_request_keeps_long_keys (t : MovieDb) (m : option HttpMethod)
    (e : string) (o : dict) (opts : RequestOptions) (k v : string) :
  NoDup (dict_keys o) ->
  dict_get o k = Some v ->
  String.length k <> 1%nat ->
  exists rq,
    build_request t m e (PObject o) opts = Normal rq
    /\ dict_get (rq_params rq) k = Some v
    /\ dict_get (rq_data rq) k = Some v.
Proof.
  intros N G L.
  destruct (build_request_query t m e o opts k) as (rq & B & D & Q); auto.
  { intros E. subst o. discriminate. }
  exists rq. rewrite D, Q, G. auto.
Qed.

Lemma build_request_keeps_long_keys_witness :
  exists rq,
    build_request (new_MovieDb 0 "key" unlimited) (Some Get) "movie/:movie_id"
      (PObject [("movie_id", "550"); ("language", "en")]) no_options = Normal rq
    /\ rq_url rq = "movie/550"
    /\ dict_get (rq_params rq) "movie_id" = Some "550".
Proof.
  destruct (build_request_keeps_long_keys (new_MovieDb 0 "key" unlimited)
              (Some Get) "movie/:movie_id"
              [("movie_id", "550"); ("language", "en")] no_options
              "movie_id" "550")
    as (rq & B & Q & _).
  - repeat constructor; simpl; intuition discriminate.
  - reflexivity.
  - discriminate.
  - exists rq. split; [exact B |]. split; [| exact Q].
    vm_compute in B. inversion B. reflexivity.
Defined.

(** X16.  Every request carries an [api_key] in its query: the key of
    the instance, unless the mapping bag has an [api_key] of its own,
    which then replaces it. *)
Theorem build_request_api_key (t : MovieDb) (m : option HttpMethod)
    (e : string) (p : Params) (opts : RequestOptions) :
  (forall o, p = PObject o -> NoDup (dict_keys o)) ->
  exists rq,
    build_request t m e p opts = Normal rq
    /\ dict_get (rq_params rq) "api_key"
       = Some (match p with
               | PObject o =>
                   match dict_get o "api_key" with
                   | Some v => v
                   | None => apiKey t
                   end
               | PString _ => apiKey t
               end).
Proof.
  intros N. unfold build_request.
  assert (L : String.length "api_key" <> 1%nat) by discriminate.
  destruct (JS.includes e ":id" && isEmpty p && JS.truthy_string (sessionId t))%bool
    eqn:S.
  - apply andb_true_iff in S as [S _]. apply andb_true_iff in S as [_ S].
    cbn [isString account_id prepareEndpoint].
    eexists. split; [reflexivity |]. cbn [rq_params].
    rewrite query_get by (auto using account_id_keys).
    destruct p as [s | o]; [reflexivity |].
    destruct o; [reflexivity | discriminate].
  - destruct p as [s | o]; cbn [isString prepareEndpoint].
    + eexists. split; [reflexivity |]. cbn [rq_params].
      rewrite query_get by (auto; constructor). reflexivity.
    + eexists. split; [reflexivity |]. cbn [rq_params].
      rewrite query_get by auto.
      now destruct (dict_get o "api_key").
Qed.

Lemma build_request_api_key_witness :
  exists rq,
    build_request (new_MovieDb 0 "key" unlimited) (Some Get) "movie/popular"
      (PObject [("api_key", "other")]) no_options = Normal rq
    /\ dict_get (rq_params rq) "api_key" = Some "other".
Proof.
  destruct (build_request_api_key (new_MovieDb 0 "key" unlimited) (Some Get)
              "movie/popular" (PObject [("api_key", "other")]) no_options)
    as (rq & B & Q).
  - intros o E. inversion E. repeat constructor. intros [].
  - exists rq. auto.
Defined.

(** X17.  The current-account default.  For a template with [:id] as
    its first placeholder and an empty bag (no keys, or the empty
    string): with a session the path has [{account_id}] in the place of
    [:id] and the query carries [id={account_id}] as well; without a
    session the path is sent with the placeholder [:id] as it stands,
    without any error, and the query holds the credentials only. *)
Theorem build_request_current_account (t : MovieDb) (m : option HttpMethod)
    (pre post : string) (p : Params) (opts : RequestOptions) :
  colon_free pre = true ->
  isEmpty p = true ->
  exists rq,
    build_request t m (pre ++ (":id" ++ post)) p opts = Normal rq
    /\ if JS.truthy_string (sessionId t)
       then rq_url rq = pre ++ "{account_id}" ++ post
            /\ dict_get (rq_params rq) "id" = Some "{account_id}"
       else rq_url rq = pre ++ (":id" ++ post)
            /\ rq_params rq = credentials t opts.
Proof.
  intros C E. unfold build_request.
  rewrite (includes_placeholder "id" post pre), E. cbn [andb].
  destruct (JS.truthy_string (sessionId t)).
  - pose proof (prepareEndpoint_replaces pre "id" post "{account_id}" C eq_refl)
      as PE.
    unfold account_id. cbn [isString]. rewrite PE.
    eexists. split; [reflexivity |]. cbn [rq_url rq_params].
    split; [reflexivity |].
    rewrite query_get by (auto using account_id_keys; discriminate).
    reflexivity.
  - assert (P2 : (if isString p then PObject [] else p) = PObject []).
    { destruct p as [s | o]; [reflexivity |]. destruct o; [reflexivity | discriminate]. }
    rewrite P2. cbn [prepareEndpoint isEmpty negb].
    eexists. split; [reflexivity |]. cbn [rq_url rq_params]. auto.
Qed.

Lemma build_request_current_account_witness :
  exists rq,
    build_request (with_sessionId (Some "s1") (new_MovieDb 0 "key" unlimited))
      (Some Get) "account/:id/lists" (PObject []) no_options = Normal rq
    /\ rq_url rq = "account/{account_id}/lists".
Proof.
  destruct (build_request_current_account
              (with_sessionId (Some "s1") (new_MovieDb 0 "key" unlimited))
              (Some Get) "account/" "/lists" (PObject []) no_options)
    as (rq & B & U & _); try reflexivity.
  exists rq. auto.
Defined.

(** ** One request per run of the drainer *)

Lemma windowed_shifted now w : shifted (windowed now w) = shifted w.
Proof.
  unfold windowed.
  now destruct (JS.gt (JS.sub (reset (limit (this w))) (JS.Num now)) (JS.Num 0)).
Qed.

Lemma requestQueue_decrement t : requestQueue (decrement t) = requestQueue t.
Proof. unfold decrement. now destruct (useDefaultLimits (options t)). Qed.

(** X18.  A run of the drainer either returns and leaves the queue as it
    is, or takes exactly one request off the head of the queue and
    throws the [TypeError] of [makeRequest()].  It never takes a request
    off the queue and returns, and it never takes more than one, however
    much quota remains. *)
Theorem checkQueue_one_or_none (fuel : nat) (now : Z) (w : World) :
  exists c w',
    checkQueue (S (S (S fuel))) now w = Some (c, w')
    /\ ((exists v, c = Normal v
                   /\ requestQueue (this w') = requestQueue (this w)
                   /\ shifted w' = shifted w)
        \/ (c = Throw includes_of_undefined
            /\ exists x, requestQueue (this w) = x :: requestQueue (this w')
                         /\ shifted w' = (shifted w ++ [x])%list)).
Proof.
  destruct (checkQueue_cases fuel now w)
    as [(Q & E) | [(Q & G & E) | (x & q & Q & G & E)]];
    do 2 eexists; (split; [exact E |]).
  - left. eauto.
  - left. eexists. split; [reflexivity |].
    split; [apply windowed_requestQueue | apply windowed_shifted].
  - right. split; [reflexivity |]. exists x. split.
    + rewrite Q. f_equal. cbn [taken this]. now rewrite requestQueue_decrement.
    + cbn [taken shifted]. now rewrite windowed_shifted.
Qed.

(** ** A new client *)

Lemma run_app fuel (a b : list Event) : forall w,
  run fuel (a ++ b)%list w
  = match run fuel a w with
    | Some w1 => run fuel b w1
    | None => None
    end.
Proof.
  induction a as [| ev a IH]; intros w; simpl; [reflexivity |].
  destruct (step fuel ev w); [apply IH | reflexivity].
Qed.

(** X19.  A client constructed under limits at time [t0] hands its first
    40 submissions to the transport; the 41st, submitted before
    [t0 + 10 s], is put on the queue instead, with a single wake of the
    drainer scheduled for the time that is left of the window. *)
Theorem new_MovieDb_first_window (fuel : nat) (t0 : Z) (key : string)
    (o : MovieDbOptions) (evs : list Event) (now : Z) (m : HttpMethod)
    (e : string) (p : Params) (opts : RequestOptions) :
  useDefaultLimits o = true ->
  forallb is_submit evs = true ->
  length evs = 40%nat ->
  now < t0 + 10 * 1000 ->
  exists w',
    run (S (S fuel)) (evs ++ [Submit now m e p opts])
      (new_World (new_MovieDb t0 key o)) = Some w'
    /\ length (sent w') = 40%nat
    /\ requestQueue (this w')
       = [{| pr_method := Some m; pr_endpoint := Some e;
             pr_params := p; pr_options := opts |}]
    /\ remaining (limit (this w')) = JS.Num 0
    /\ timers w'
       = [{| handle := O; delay_ms := Some (JS.Num (t0 + 10 * 1000 - now)) |}].
Proof.
  intros U A L N.
  set (w0 := new_World (new_MovieDb t0 key o)).
  assert (U0 : useDefaultLimits (options (this w0)) = true) by exact U.
  assert (R0 : remaining (limit (this w0)) = JS.Num 40).
  { cbn. now rewrite U. }
  assert (Re0 : reset (limit (this w0)) = JS.Num (t0 + 10 * 1000)).
  { cbn. now rewrite U. }
  destruct (run_submits_admitted (S fuel) evs w0 A)
    as (w1 & l & Ru & T & Se & F & Ti & Pu & Sh & Nh).
  { intros k Hk. rewrite L in Hk.
    destruct (decrements_limited k (this w0) 40 U0 R0) as (U' & R' & _).
    unfold exhausted. rewrite U', R'. unfold JS.le. cbn [andb].
    apply Z.leb_gt. lia. }
  destruct (decrements_limited (length evs) (this w0) 40 U0 R0)
    as (U1 & R1 & Re1 & Q1 & T1).
  rewrite <- T in U1, R1, Re1, Q1, T1. rewrite L in R1. cbn in R1.
  rewrite run_app, Ru. cbn [run]. unfold step, after.
  assert (X : exhausted (this w1) = true).
  { unfold exhausted. now rewrite U1, R1. }
  rewrite makeRequest_exhausted by exact X.
  match goal with
  | |- context [checkQueue _ now ?w2] => set (w2' := w2)
  end.
  rewrite (checkQueue_returns fuel now w2' (waiting now w2')).
  - eexists. split; [reflexivity |].
    cbn. unfold cleared. cbn. rewrite T1, Ti, Se, Q1, R1, Re1, Nh, Re0. cbn.
    apply Forall2_length in F. rewrite <- F, L.
    repeat split; reflexivity.
  - subst w2'. cbn. destruct (requestQueue (this w1)); discriminate.
  - apply checkQueue_window_wait. subst w2'. cbn. rewrite Re1, Re0. cbn.
    apply Z.ltb_lt. lia.
  - subst w2'. cbn. now rewrite R1.
Qed.

Lemma new_MovieDb_first_window_witness :
  exists w',
    run 2 (repeat (Submit 5 Get "movie/550" (PObject []) no_options) 40
             ++ [Submit 9000 Get "movie/551" (PObject []) no_options])
      (new_World (new_MovieDb 0 "key" limited)) = Some w'
    /\ length (sent w') = 40%nat
    /\ length (requestQueue (this w')) = 1%nat
    /\ timers w' = [{| handle := O; delay_ms := Some (JS.Num 1000) |}].
Proof.
  destruct (new_MovieDb_first_window 0 0 "key" limited
              (repeat (Submit 5 Get "movie/550" (PObject []) no_options) 40)
              9000 Get "movie/551" (PObject []) no_options)
    as (w' & R & Se & Q & _ & Ti); try reflexivity.
  exists w'. rewrite Q. auto.
Defined.

(** * The client with the errors axios delivers *)

(** ** The rejection handler *)

(** Under limits the handler does nothing to the client on an error of
    axios: line 189 or 203 throws on the undefined [res.header], or
    line 193 throws on its unbound names. *)
Lemma on_rejected_axios now err w :
  useDefaultLimits (options (this w)) = true ->
  from_axios err = true ->
  exists e, on_rejected now err w = Some (Throw e, w)
            /\ (rate_limited (this w) err = false ->
                e = TypeError
                  "Cannot read properties of undefined (reading 'x-ratelimit-remaining')")
            /\ (rate_limited (this w) err = true -> stale now (this w) = true ->
                e = TypeError
                  "Cannot read properties of undefined (reading 'retry-after')")
            /\ (rate_limited (this w) err = true -> stale now (this w) = false ->
                e = ReferenceError "createAndStartRequest is not defined").
Proof.
  intros U A.
  destruct (rate_limited (this w) err) eqn:RL.
  - unfold rate_limited, from_axios, stale, on_rejected, header_field in *.
    destruct w as [t ts nh se dr pu sh]. unfold bind, get_this. cbn in *.
    destruct (response err) as [res |]; cbn in *;
      [| rewrite andb_false_r in RL; discriminate].
    destruct (header res); [discriminate |].
    rewrite RL.
    destruct (negb (JS.truthy (reset (limit t))) || JS.lt (reset (limit t)) (JS.Num now))%bool;
      cbn; eexists; (split; [reflexivity |]);
      repeat split; intros; congruence.
  - rewrite (on_rejected_without_header now err w U RL).
    + eexists. split; [reflexivity |]. repeat split; intros; congruence.
    + unfold from_axios in A. destruct (response err) as [res |]; [| exact I].
      now destruct (header res).
Qed.

(** ** The drainer on the worlds a client reaches *)

Lemma windowed_reset now w :
  reset (limit (this (windowed now w))) = reset (limit (this w)).
Proof.
  unfold windowed.
  now destruct (JS.gt (JS.sub (reset (limit (this w))) (JS.Num now)) (JS.Num 0)).
Qed.

Lemma in_quota_exhausted w :
  in_quota w ->
  useDefaultLimits (options (this w)) = true ->
  exhausted (this w) = negb (JS.gt (remaining (limit (this w))) (JS.Num 0)).
Proof.
  intros (n & R & B) U. unfold exhausted. rewrite U, R. cbn.
  destruct (Z.leb_spec n 0), (Z.ltb_spec 0 n); auto; lia.
Qed.

(** What [checkQueue] does when it starts with the quota exhausted and a
    request waiting: before [reset] it replaces the wake and returns;
    from [reset] on it restores the quota, takes the head of the queue
    off and throws. *)
Lemma armed_checkQueue fuel now w :
  armed w ->
  (JS.gt (JS.sub (reset (limit (this w))) (JS.Num now)) (JS.Num 0) = true
   /\ checkQueue (S (S (S fuel))) now w = Some (Normal VMakeRequest, waiting now w))
  \/ (JS.gt (JS.sub (reset (limit (this w))) (JS.Num now)) (JS.Num 0) = false
      /\ exists x q,
           requestQueue (this w) = x :: q
           /\ checkQueue (S (S (S fuel))) now w
              = Some (Throw includes_of_undefined, taken x q (restored w))).
Proof.
  intros (U & Iq & O & G & Q).
  destruct (JS.gt (JS.sub (reset (limit (this w))) (JS.Num now)) (JS.Num 0)) eqn:D.
  - left. split; [reflexivity |].
    apply checkQueue_returns; [exact Q | now apply checkQueue_window_wait | exact G].
  - right. split; [reflexivity |].
    destruct (requestQueue (this w)) as [| x q] eqn:Qe; [congruence |].
    exists x, q. split; [reflexivity |].
    apply checkQueue_takes;
      [now apply checkQueue_window_elapsed | exact Qe | reflexivity].
Qed.

Lemma steady_waiting now w :
  armed w ->
  JS.gt (JS.sub (reset (limit (this w))) (JS.Num now)) (JS.Num 0) = true ->
  steady (waiting now w).
Proof.
  intros (U & Iq & O & G & Q) D.
  split; [exact U |]. split; [exact Iq |]. split.
  - pose proof (one_wake_windowed now w O) as OW. unfold windowed in OW.
    now rewrite D in OW.
  - intros _. split; [exact G | exact Q].
Qed.

Lemma taken_restored_this x q w :
  useDefaultLimits (options (this w)) = true ->
  useDefaultLimits (options (this (taken x q (restored w)))) = true
  /\ remaining (limit (this (taken x q (restored w)))) = JS.Num 39
  /\ reset (limit (this (taken x q (restored w)))) = reset (limit (this w)).
Proof.
  intros U. cbn [taken restored this]. unfold decrement. cbn. rewrite U. cbn. auto.
Qed.

Lemma steady_taken x q w :
  armed w -> steady (taken x q (restored w)).
Proof.
  intros (U & Iq & O & G & Q).
  destruct (taken_restored_this x q w U) as (U' & R' & _).
  assert (T : timers (taken x q (restored w)) = []).
  { cbn. now apply one_wake_cleared. }
  split; [exact U' |]. split; [| split].
  - exists 39. split; [exact R' | lia].
  - unfold one_wake. now rewrite T.
  - intros N. now rewrite T in N.
Qed.

Lemma armed_queued x w :
  steady w -> exhausted (this w) = true -> armed (queued x w).
Proof.
  intros (U & Iq & O & Ti) X.
  rewrite (in_quota_exhausted w Iq U) in X. apply negb_true_iff in X.
  split; [exact U |]. split; [exact Iq |]. split; [exact O |].
  split; [exact X |]. cbn. destruct (requestQueue (this w)); discriminate.
Qed.

Lemma armed_fired h w :
  steady w -> pending h w = true -> armed (fired h w).
Proof.
  intros (U & Iq & O & Ti) P.
  assert (N : timers w <> []).
  { unfold pending in P. destruct (timers w); discriminate. }
  destruct (Ti N) as [G Q].
  split; [exact U |]. split; [exact Iq |].
  split; [now apply one_wake_fired |]. split; [exact G | exact Q].
Qed.

Lemma steady_fired h w : steady w -> steady (fired h w).
Proof.
  intros (U & Iq & O & Ti).
  split; [exact U |]. split; [exact Iq |]. split; [now apply one_wake_fired |].
  intros N. apply Ti. intros E. apply N. cbn. now rewrite E.
Qed.

Lemma steady_dispatched rq w :
  steady w -> exhausted (this w) = false ->
  steady (dispatched rq w)
  /\ reset (limit (this (dispatched rq w))) = reset (limit (this w)).
Proof.
  intros (U & Iq & O & Ti) X.
  rewrite (in_quota_exhausted w Iq U) in X. apply negb_false_iff in X.
  assert (Us : useDefaultLimits (options (decrement (this w))) = true
               /\ reset (limit (decrement (this w))) = reset (limit (this w))).
  { unfold decrement. rewrite U. cbn. auto. }
  destruct Us as [U' Re'].
  split; [| exact Re'].
  split; [exact U' |]. split; [| split].
  - apply (in_quota_decrement w); [exact Iq | | reflexivity].
    destruct Iq as (n & R & B). rewrite R in *. cbn in *.
    apply Z.ltb_lt in X. apply Z.leb_gt. lia.
  - apply (one_wake_same w); cbn; auto. apply requestLimitTimeout_decrement.
  - intros N. cbn in N. destruct (Ti N) as [G _]. congruence.
Qed.

(** What [checkQueue] leaves behind when it starts armed. *)
Lemma armed_checkQueue_steady fuel now w :
  armed w ->
  exists c w',
    checkQueue (S (S (S fuel))) now w = Some (c, w')
    /\ steady w'
    /\ reset (limit (this w')) = reset (limit (this w)).
Proof.
  intros Ar. pose proof Ar as (U & _).
  destruct (armed_checkQueue fuel now w Ar) as [(D & E) | (D & x & q & Q & E)];
    do 2 eexists; (split; [exact E |]).
  - split; [now apply steady_waiting | reflexivity].
  - split; [now apply steady_taken |]. now apply taken_restored_this.
Qed.

(** An event keeps a client steady and leaves [reset] where it is. *)
Lemma step_steady fuel ev w :
  axios_event ev = true ->
  steady w ->
  exists w',
    step (S (S (S (S fuel)))) ev w = Some w'
    /\ steady w'
    /\ reset (limit (this w')) = reset (limit (this w)).
Proof.
  intros A St. pose proof St as (U & Iq & O & Ti).
  destruct ev as [now m e p o | now h | now err]; unfold step, after.
  - destruct (exhausted (this w)) eqn:X.
    + rewrite makeRequest_exhausted by exact X.
      pose proof (armed_queued {| pr_method := Some m; pr_endpoint := Some e;
                                  pr_params := p; pr_options := o |} w St X) as Ar.
      destruct (armed_checkQueue_steady fuel now _ Ar) as (c & w' & E & St' & Re).
      unfold queued in E. rewrite E. exists w'. auto.
    + destruct (build_request_normal (this w) (Some m) e p o) as [rq B].
      rewrite (makeRequest_admitted _ now (Some m) e p o w rq X B).
      fold (dispatched rq w).
      destruct (steady_dispatched rq w St X) as [St' Re].
      eexists. split; [reflexivity |]. auto.
  - unfold bind, fire. fold (pending h w). fold (fired h w).
    destruct (pending h w) eqn:P.
    + pose proof (armed_fired h w St P) as Ar.
      destruct (armed_checkQueue_steady (S fuel) now _ Ar) as (c & w' & E & St' & Re).
      rewrite E. exists w'. auto.
    + cbn. eexists. split; [reflexivity |]. split; [now apply steady_fired | reflexivity].
  - cbn in A. destruct (on_rejected_axios now err w U A) as (e & E & _).
    rewrite E. eexists. split; [reflexivity |]. split; [exact St | reflexivity].
Qed.

Lemma run_steady fuel evs : forall w,
  forallb axios_event evs = true ->
  steady w ->
  exists w',
    run (S (S (S (S fuel)))) evs w = Some w'
    /\ steady w'
    /\ reset (limit (this w')) = reset (limit (this w)).
Proof.
  induction evs as [| ev evs IH]; intros w A St.
  - exists w. auto.
  - cbn in A. apply andb_true_iff in A as [A1 A2].
    destruct (step_steady fuel ev w A1 St) as (w1 & E & St1 & Re1).
    destruct (IH w1 A2 St1) as (w' & R & St' & Re').
    exists w'. split; [cbn [run]; rewrite E; exact R |].
    split; [exact St' | congruence].
Qed.

Lemma steady_new t0 key o s :
  useDefaultLimits o = true ->
  steady (new_World (with_sessionId s (new_MovieDb t0 key o)))
  /\ reset (limit (this (new_World (with_sessionId s (new_MovieDb t0 key o)))))
     = JS.Num (t0 + 10 * 1000).
Proof.
  intros U. cbn. rewrite U. split; [| reflexivity].
  split; [exact U |]. split; [| split].
  - exists 40. cbn. rewrite U. split; [reflexivity | lia].
  - exact I.
  - intros N. now destruct N.
Qed.

Lemma reachable_steady t0 w :
  reachable t0 w -> steady w /\ reset (limit (this w)) = JS.Num (t0 + 10 * 1000).
Proof.
  intros (fuel & key & o & s & evs & U & A & R).
  destruct (steady_new t0 key o s U) as [St0 Re0].
  destruct (run_steady fuel evs _ A St0) as (w' & R' & St & Re).
  rewrite R in R'. inversion R'; subst w'. split; [exact St | congruence].
Qed.

(** C3.  For every drain invocation while [reset] is still in the future
    ([delay = reset - now > 0]), the drain only schedules its next wake
    at that delay and returns: it takes no request off the queue, hands
    nothing to the transport and leaves the quota counters as they are.
    [checkQueue] is private; it is entered from line 142 and from a timer
    that fires, on a client that was constructed under limits and has
    lived through any submissions, fired timers and failed requests. *)
Theorem checkQueue_before_reset (fuel : nat) (t0 now : Z) (w w0 : World) :
  reachable t0 w ->
  drain_entry w w0 ->
  JS.gt (JS.sub (reset (limit (this w0))) (JS.Num now)) (JS.Num 0) = true ->
  exists w',
    checkQueue (S fuel) now w0 = Some (Normal VMakeRequest, w')
    /\ requestQueue (this w') = requestQueue (this w0)
    /\ shifted w' = shifted w0
    /\ sent w' = sent w0
    /\ limit (this w') = limit (this w0)
    /\ requestLimitTimeout (this w') = Some (next_handle w0)
    /\ timers w'
       = [{| handle := next_handle w0;
             delay_ms := Some (JS.sub (reset (limit (this w0))) (JS.Num now)) |}].
Proof.
  intros Rc En D.
  destruct (reachable_steady t0 w Rc) as [St _].
  assert (Ar : armed w0).
  { destruct En as [(x & X & E) | (h & P & E)]; subst w0.
    - now apply armed_queued.
    - now apply armed_fired. }
  destruct Ar as (U & Iq & O & G & Q).
  exists (waiting now w0). split.
  - apply checkQueue_returns; [exact Q | now apply checkQueue_window_wait | exact G].
  - cbn. rewrite (one_wake_cleared w0 O). repeat split; reflexivity.
Qed.

(** A new client, 41 submissions in the first seconds, and the timer of
    the 41st firing at 6 s: the drainer schedules a wake for the 4 s that
    are left and returns. *)
Lemma checkQueue_before_reset_witness :
  exists w w',
    run 4 (repeat (Submit 5 Get "movie/550" (PObject []) no_options) 41)
      (new_World (new_MovieDb 0 "key" limited)) = Some w
    /\ checkQueue 1 6000 (fired 0 w) = Some (Normal VMakeRequest, w')
    /\ requestQueue (this w') = requestQueue (this w)
    /\ limit (this w') = limit (this w)
    /\ sent w' = sent w
    /\ timers w' = [{| handle := 1; delay_ms := Some (JS.Num 4000) |}].
Proof.
  destruct (run_total 0 (repeat (Submit 5 Get "movie/550" (PObject []) no_options) 41)
              (new_World (new_MovieDb 0 "key" limited))) as (w & R).
  assert (Rc : reachable 0 w).
  { exists O, "key", limited, None,
      (repeat (Submit 5 Get "movie/550" (PObject []) no_options) 41).
    split; [reflexivity |]. split; [reflexivity | exact R]. }
  pose proof R as R2. vm_compute in R2. inversion R2 as [W]. clear R2.
  destruct (checkQueue_before_reset 0 0 6000 w (fired 0 w) Rc)
    as (w' & E & Q & _ & Se & L & _ & Ti).
  - right. exists O. split; [rewrite <- W; reflexivity | reflexivity].
  - rewrite <- W. reflexivity.
  - exists w, w'. split; [exact R |]. split; [exact E |].
    split; [exact Q |]. split; [exact L |]. split; [exact Se |].
    rewrite Ti. rewrite <- W. reflexivity.
Defined.

(** ** What becomes of the requests the drainer takes *)





(** ** A 429 from axios *)

(** C5 on the code.  On a 429 rejection under limits the handler never
    sets [reset]: the response that axios delivers has no property
    [header], so with [reset] unset or in the past line 189 throws a
    [TypeError] before line 190 assigns, and with [reset] in the future
    line 193 throws; either way the client is exactly as it was. *)
Theorem on_rejected_429_keeps_reset (now : Z) (err : AxiosError)
    (res : ErrResponse) (w : World) :
  useDefaultLimits (options (this w)) = true ->
  response err = Some res ->
  status res = Some 429 ->
  header res = None ->
  exists e,
    on_rejected now err w = Some (Throw e, w)
    /\ (JS.truthy (reset (limit (this w))) = false
        \/ JS.lt (reset (limit (this w))) (JS.Num now) = true ->
        e = TypeError "Cannot read properties of undefined (reading 'retry-after')").
Proof.
  intros U Re St H.
  assert (A : from_axios err = true).
  { unfold from_axios. now rewrite Re, H. }
  assert (RL : rate_limited (this w) err = true).
  { unfold rate_limited. now rewrite U, Re, St. }
  destruct (on_rejected_axios now err w U A) as (e & E & _ & Stale & _).
  exists e. split; [exact E |].
  intros S. apply Stale; [exact RL |]. unfold stale.
  destruct S as [T | L]; [now rewrite T | now rewrite L, orb_true_r].
Qed.

(** [retry-after: 5] at 1000 on a client whose [reset] was at 500:
    [reset] is still 500. *)
Lemma on_rejected_429_keeps_reset_witness :
  on_rejected 1000 (axios_rejection 429 [("retry-after", "5")])
    (client (JS.Num 0) (JS.Num 500))
  = Some (Throw (TypeError
            "Cannot read properties of undefined (reading 'retry-after')"),
          client (JS.Num 0) (JS.Num 500)).
Proof.
  destruct (on_rejected_429_keeps_reset 1000
              (axios_rejection 429 [("retry-after", "5")])
              {| status := Some 429; header := None |}
              (client (JS.Num 0) (JS.Num 500)))
    as (e & E & T); [reflexivity | reflexivity | reflexivity | reflexivity |].
  specialize (T (or_intror eq_refl)). subst e. exact E.
Defined.

(** ** Server feedback from axios *)

(** C7 on the code.  Under limits, applying server feedback to a failed
    response of axios (any status but 429, any headers, parsable or not)
    throws: line 203 reads a property of the undefined [res.header].
    The tracker is left as it was, but the handler does not complete,
    and the caller's promise is rejected with that [TypeError]. *)
Theorem on_rejected_feedback_throws {R : Type} (now : Z) (err : AxiosError)
    (w : World) :
  useDefaultLimits (options (this w)) = true ->
  rate_limited (this w) err = false ->
  from_axios err = true ->
  on_rejected now err w
  = Some (Throw (TypeError
            "Cannot read properties of undefined (reading 'x-ratelimit-remaining')"),
          w)
  /\ settle (R := R) now (inr err) w
     = Some (Rejected (Thrown (TypeError
               "Cannot read properties of undefined (reading 'x-ratelimit-remaining')")),
             w).
Proof.
  intros U RL A.
  destruct (on_rejected_axios now err w U A) as (e & E & T & _).
  rewrite (T RL) in E. split; [exact E |].
  unfold settle. now rewrite E.
Qed.

Lemma on_rejected_feedback_throws_witness :
  settle (R := unit) 1000
    (inr (axios_rejection 500 [("x-ratelimit-remaining", "soon");
                               ("x-ratelimit-reset", "later")]))
    (client (JS.Num 10) (JS.Num 5000))
  = Some (Rejected (Thrown (TypeError
            "Cannot read properties of undefined (reading 'x-ratelimit-remaining')")),
          client (JS.Num 10) (JS.Num 5000)).
Proof.
  apply (on_rejected_feedback_throws (R := unit) 1000
           (axios_rejection 500 [("x-ratelimit-remaining", "soon");
                                 ("x-ratelimit-reset", "later")])
           (client (JS.Num 10) (JS.Num 5000))); reflexivity.
Defined.

(** ** The window of a client *)

(** X3.  The window of a client never moves.  Through any run of
    submissions, fired timers and failures delivered by axios, [reset]
    of a client constructed under limits at [t0] stays [t0 + 10 s]:
    nothing the client lives through writes it. *)
Theorem run_reset_fixed (fuel : nat) (t0 : Z) (key : string) (o : MovieDbOptions)
    (s : option string) (evs : list Event) :
  useDefaultLimits o = true ->
  forallb axios_event evs = true ->
  exists w,
    run (S (S (S (S fuel)))) evs
      (new_World (with_sessionId s (new_MovieDb t0 key o))) = Some w
    /\ reset (limit (this w)) = JS.Num (t0 + 10 * 1000).
Proof.
  intros U A.
  destruct (steady_new t0 key o s U) as [St0 Re0].
  destruct (run_steady fuel evs _ A St0) as (w & R & _ & Re).
  exists w. split; [exact R | congruence].
Qed.

Lemma run_reset_fixed_witness :
  exists w,
    run 4 (repeat (Submit 5 Get "movie/550" (PObject []) no_options) 41
             ++ [ Fail 6000 (axios_rejection 429 [("retry-after", "5")]);
                  Fail 7000 (axios_rejection 500 [("x-ratelimit-reset", "99")]);
                  Wake 20000 0 ])
      (new_World (new_MovieDb 0 "key" limited)) = Some w
    /\ reset (limit (this w)) = JS.Num 10000.
Proof.
  apply (run_reset_fixed 0 0 "key" limited None); reflexivity.
Defined.

(** X11.  Once the first ten seconds of a client under limits have
    passed, the limiter never makes a submission wait: the submission is
    either handed to the transport, when quota is left, or it throws the
    [TypeError] of the drainer synchronously, when the quota is
    exhausted (the drainer restores the quota, takes the head of the
    queue off and throws, leaving 39).  It never returns with the
    request waiting on the queue for a wake. *)
Theorem makeRequest_after_first_window (fuel : nat) (t0 now : Z) (w : World)
    (m : HttpMethod) (e : string) (p : Params) (o : RequestOptions) :
  reachable t0 w ->
  t0 + 10 * 1000 <= now ->
  exists c w',
    makeRequest (S (S (S (S fuel)))) now (Some m) (Some e) p o w = Some (c, w')
    /\ ((exists rq, c = Normal (VPromise rq)
                    /\ build_request (this w) (Some m) e p o = Normal rq
                    /\ sent w' = (sent w ++ [rq])%list)
        \/ (c = Throw includes_of_undefined
            /\ sent w' = sent w
            /\ remaining (limit (this w')) = JS.Num 39
            /\ timers w' = [])).
Proof.
  intros Rc L.
  destruct (reachable_steady t0 w Rc) as [St Re].
  destruct (exhausted (this w)) eqn:X.
  - rewrite makeRequest_exhausted by exact X.
    pose proof (armed_queued {| pr_method := Some m; pr_endpoint := Some e;
                                pr_params := p; pr_options := o |} w St X) as Ar.
    destruct (armed_checkQueue fuel now _ Ar) as [(D & E) | (D & x & q & Q & E)].
    + exfalso. cbn in D. rewrite Re in D. cbn in D. apply Z.ltb_lt in D. lia.
    + unfold queued in E. rewrite E. do 2 eexists. split; [reflexivity |].
      right. split; [reflexivity |]. split; [reflexivity |].
      destruct Ar as (U & _ & O & _).
      destruct (taken_restored_this x q
                  (queued {| pr_method := Some m; pr_endpoint := Some e;
                             pr_params := p; pr_options := o |} w) U) as (_ & R39 & _).
      split; [exact R39 |]. cbn. now apply one_wake_cleared.
  - destruct (build_request_normal (this w) (Some m) e p o) as [rq B].
    rewrite (makeRequest_admitted _ now (Some m) e p o w rq X B).
    do 2 eexists. split; [reflexivity |]. left. exists rq. auto.
Qed.

Lemma makeRequest_after_first_window_witness :
  exists w w',
    run 4 (repeat (Submit 5 Get "movie/550" (PObject []) no_options) 41)
      (new_World (new_MovieDb 0 "key" limited)) = Some w
    /\ makeRequest 4 20000 (Some Get) (Some "movie/551") (PObject []) no_options w
       = Some (Throw includes_of_undefined, w')
    /\ sent w' = sent w.
Proof.
  destruct (run_total 0 (repeat (Submit 5 Get "movie/550" (PObject []) no_options) 41)
              (new_World (new_MovieDb 0 "key" limited))) as (w & R).
  assert (Rc : reachable 0 w).
  { exists O, "key", limited, None,
      (repeat (Submit 5 Get "movie/550" (PObject []) no_options) 41).
    split; [reflexivity |]. split; [reflexivity | exact R]. }
  destruct (makeRequest_after_first_window 0 0 20000 w Get "movie/551"
              (PObject []) no_options Rc)
    as (c & w' & E & [(rq & C & B & Se) | (C & Se & _)]); [lia | |].
  - exfalso. subst c.
    pose proof R as R2. vm_compute in R2. injection R2 as W. subst w.
    vm_compute in E. discriminate E.
  - subst c. exists w, w'. auto.
Defined.
